(** * Nornir BGP route-map builder: a shallow embedding of
    [bgp_route_mapper/bgp_route_mapper.py] and the properties of its
    parsing clean-up, peer validation and route-map synthesis.

    Python dictionaries are finite maps ([gmap]), Python lists are lists,
    exceptions are values of [exn] threaded through the [result] monad, and
    the Nornir host object that the tasks read and write is the record
    [Host].  Calls to [print] and [pprint] write to the terminal only and
    are left out; every lookup they perform that can raise is kept.

    The dictionary functions of [vlan_mapper/vlan_mapper.py] are embedded
    in the same way. *)

From Stdlib Require Import ZArith Ascii.
From stdpp Require Import gmap strings list pretty.

Local Open Scope Z_scope.

(** ** Exceptions *)

(** The Python exceptions that the modelled code can raise. *)
Inductive exn : Type :=
  | KeyError (key : string)
  | IndexError
  | TypeError
  | ValueError.

Inductive result (A : Type) : Type :=
  | Ok (a : A)
  | Raise (e : exn).
Arguments Ok {A} a.
Arguments Raise {A} e.

#[global] Instance exn_eq_dec : EqDecision exn.
Proof. solve_decision. Defined.

(** Sequencing: an exception raised by the first part ends the whole. *)
Definition bind {A B : Type} (m : result A) (k : A -> result B) : result B :=
  match m with
  | Ok a => k a
  | Raise e => Raise e
  end.

Notation "'let*' x ':=' m 'in' k" := (bind m (fun x => k))
  (at level 10, x binder, k at level 200).

(** [d[key]] on an optional value: [KeyError] when it is missing. *)
Definition getitem {A} (key : string) (o : option A) : result A :=
  match o with
  | Some a => Ok a
  | None => Raise (KeyError key)
  end.

(** ** Strings, the Python way *)

Module Str.

Definition newline : ascii := "010"%char.
Definition tab : ascii := "009"%char.
Definition space : ascii := " "%char.

(** [s.split(sep)] for a one-character separator. *)
Fixpoint split (sep : ascii) (s : string) : list string :=
  match s with
  | EmptyString => [EmptyString]
  | String c s' =>
      if decide (c = sep) then EmptyString :: split sep s'
      else match split sep s' with
           | l :: ls => String c l :: ls
           | [] => [String c EmptyString]
           end
  end.

(** [sep.join(l)]. *)
Fixpoint join (sep : string) (l : list string) : string :=
  match l with
  | [] => EmptyString
  | [s] => s
  | s :: l' => s +:+ sep +:+ join sep l'
  end.

(** The character does not occur in the string. *)
Fixpoint lacks (c : ascii) (s : string) : bool :=
  match s with
  | EmptyString => true
  | String a s' => negb (bool_decide (a = c)) && lacks c s'
  end.

Fixpoint all (p : ascii -> bool) (s : string) : bool :=
  match s with
  | EmptyString => true
  | String a s' => p a && all p s'
  end.

Fixpoint drop (n : nat) (s : string) : string :=
  match n, s with
  | O, _ => s
  | S n', String _ s' => drop n' s'
  | S _, EmptyString => EmptyString
  end.

Definition lines (s : string) : list string := split newline s.
Definition unlines (l : list string) : string :=
  join (String newline EmptyString) l.

End Str.

(** ** [textwrap.dedent] *)

(** The standard library function, in the regular-expression version of
    CPython 3.6 to 3.13, read line by line: both of its patterns are
    anchored at line starts and cannot cross a newline. *)
Module Textwrap.

(** The character class [[ \t]]. *)
Definition is_blank (c : ascii) : bool :=
  bool_decide (c = Str.space) || bool_decide (c = Str.tab).

(** [_whitespace_only_re.sub('', text)]: a line made of blanks only
    becomes the empty line. *)
Definition whitespace_only_sub (line : string) : string :=
  if Str.all is_blank line then EmptyString else line.

(** [_leading_whitespace_re] on one line: the blanks in front of the
    first other character; no match on a line without such a character. *)
Fixpoint leading_whitespace (line : string) : option string :=
  match line with
  | EmptyString => None
  | String c rest =>
      if is_blank c then String c <$> leading_whitespace rest
      else Some EmptyString
  end.

(** [margin[:i]] at the first index [i] where the two strings differ. *)
Fixpoint common_prefix (a b : string) : string :=
  match a, b with
  | String x a', String y b' =>
      if decide (x = y) then String x (common_prefix a' b')
      else EmptyString
  | _, _ => EmptyString
  end.

(** One round of the loop over [indents]. *)
Definition margin_step (margin : option string) (indent : string)
  : option string :=
  match margin with
  | None => Some indent
  | Some m =>
      if String.prefix m indent then Some m
      else if String.prefix indent m then Some indent
      else Some (common_prefix m indent)
  end.

(** [re.sub(r'(?m)^' + margin, '', text)] on one line. *)
Definition strip_margin (margin line : string) : string :=
  if String.prefix margin line then Str.drop (String.length margin) line
  else line.

Definition dedent (text : string) : string :=
  let ls := whitespace_only_sub <$> Str.lines text in
  let indents := omap leading_whitespace ls in
  match fold_left margin_step indents None with
  | Some (String c m) => Str.unlines (strip_margin (String c m) <$> ls)
  | _ => Str.unlines ls
  end.

End Textwrap.

(** ** The [ipaddress] module *)

(** IPv6 literals are parsed and printed by the standard library; the
    program only needs to know whether a literal is accepted and how the
    address prints, so both are taken as given. *)
Class Ipv6Lib : Type := {
  ipv6_int_from_string : string -> option Z;
  ipv6_string_from_int : Z -> string
}.

Module Ipaddress.

Inductive address : Type :=
  | IPv4Address (ip : Z)
  | IPv6Address (ip : Z).

Record network : Type := Network {
  version : Z;
  network_address : Z;
  netmask : Z
}.

Definition address_version (a : address) : Z :=
  match a with
  | IPv4Address _ => 4
  | IPv6Address _ => 6
  end.

Definition address_int (a : address) : Z :=
  match a with
  | IPv4Address ip => ip
  | IPv6Address ip => ip
  end.

Definition ALL_ONES : Z := 2 ^ 32 - 1.
Definition max_prefixlen : Z := 32.

(** [c.isascii() and c.isdigit()] for one character. *)
Definition is_digit (c : ascii) : bool :=
  let n := Z.of_N (N_of_ascii c) in (48 <=? n) && (n <=? 57).

(** [int(s, 10)] on a string of decimal digits. *)
Fixpoint int_of_digits (acc : Z) (s : string) : Z :=
  match s with
  | EmptyString => acc
  | String c s' => int_of_digits (10 * acc + (Z.of_N (N_of_ascii c) - 48)) s'
  end.

Definition isdigit (s : string) : bool :=
  negb (bool_decide (s = EmptyString)) && Str.all is_digit s.

(** [IPv4Address._parse_octet]; [None] stands for its [ValueError]. *)
Definition parse_octet (octet_str : string) : option Z :=
  match octet_str with
  | EmptyString => None
  | String c0 _ =>
      if negb (Str.all is_digit octet_str) then None
      else if (3 <? String.length octet_str)%nat then None
      else if negb (bool_decide (octet_str = "0"))
              && bool_decide (c0 = "0"%char) then None
      else
        let octet_int := int_of_digits 0 octet_str in
        if 255 <? octet_int then None else Some octet_int
  end.

(** [int.from_bytes(octets, 'big')]. *)
Definition from_bytes (octets : list Z) : Z :=
  fold_left (fun acc b => 256 * acc + b) octets 0.

(** [ip_int.to_bytes(4, 'big')]. *)
Definition to_bytes4 (ip_int : Z) : list Z :=
  [ip_int / 2 ^ 24 mod 256; ip_int / 2 ^ 16 mod 256;
   ip_int / 2 ^ 8 mod 256; ip_int mod 256].

(** [IPv4Address._ip_int_from_string]; [None] stands for
    [AddressValueError]. *)
Definition ip_int_from_string (ip_str : string) : option Z :=
  match ip_str with
  | EmptyString => None
  | _ =>
      let octets := Str.split "."%char ip_str in
      if negb (length octets =? 4)%nat then None
      else from_bytes <$> mapM parse_octet octets
  end.

(** [IPv4Address(address)] for a string argument. *)
Definition ipv4_address (addr_str : string) : option Z :=
  if negb (Str.lacks "/"%char addr_str) then None
  else ip_int_from_string addr_str.

(** [str(n)] for a non-negative integer. *)
Definition str_int (n : Z) : string := pretty (Z.to_N n).

Section WithIpv6.
Context `{Ipv6Lib}.

(** [ipaddress.ip_address(address)] for a string argument. *)
Definition ip_address (addr : string) : result address :=
  match ipv4_address addr with
  | Some ip => Ok (IPv4Address ip)
  | None =>
      match ipv6_int_from_string addr with
      | Some ip => Ok (IPv6Address ip)
      | None => Raise ValueError
      end
  end.

(** [str(peer_ip)]. *)
Definition str (a : address) : string :=
  match a with
  | IPv4Address ip => Str.join "." (str_int <$> to_bytes4 ip)
  | IPv6Address ip => ipv6_string_from_int ip
  end.
End WithIpv6.

(** [IPv4Network._ip_int_from_prefix]. *)
Definition ip_int_from_prefix (prefixlen : Z) : Z :=
  Z.lxor ALL_ONES (Z.shiftr ALL_ONES prefixlen).

(** [IPv4Network._prefix_from_prefix_string]. *)
Definition prefix_from_prefix_string (prefixlen_str : string) : option Z :=
  if negb (isdigit prefixlen_str) then None
  else
    let prefixlen := int_of_digits 0 prefixlen_str in
    if (0 <=? prefixlen) && (prefixlen <=? max_prefixlen) then Some prefixlen
    else None.

(** [ipaddress.ip_network(address)] (strict) on the literals this program
    passes to it: an IPv4 address, a slash and a decimal prefix length.
    Netmasks in dotted form and IPv6 networks are not used by the program
    and are not modelled: they fall in the [ValueError] case here. *)
Definition ip_network (addr : string) : result network :=
  match Str.split "/"%char addr with
  | [a; mask] =>
      match ipv4_address a, prefix_from_prefix_string mask with
      | Some packed, Some prefixlen =>
          let nm := ip_int_from_prefix prefixlen in
          if negb (Z.land packed nm =? packed) then Raise ValueError
          else Ok (Network 4 packed nm)
      | _, _ => Raise ValueError
      end
  | _ => Raise ValueError
  end.

(** [address in network], i.e. [_BaseNetwork.__contains__]. *)
Definition contains (net : network) (other : address) : bool :=
  if negb (version net =? address_version other) then false
  else Z.land (address_int other) (netmask net) =? network_address net.

End Ipaddress.

(** ** Data model *)

(** What TTP returns for a template group: the list of the records it
    matched, or the bare record when it matched exactly one. *)
Inductive group : Type :=
  | GDict (d : gmap string string)
  | GList (l : list (gmap string string)).

(** What TTP returns for a template without groups, after [json.loads]:
    records inside any number of enclosing lists. *)
#[warnings="-register-all"]
Inductive json : Type :=
  | JDict (d : gmap string string)
  | JList (l : list json).

(** A row of the [show route-map] table, as TextFSM returns it. *)
Module RouteMap.
Record t : Type := Row {
  name : string;
  action : string;
  seq : string;
  match_clauses : list string;
  set_clauses : list string
}.
End RouteMap.

(** The keys that the tasks read and write on [task.host]; a key that was
    never set is [None] and reading it raises [KeyError]. *)
Record Host : Type := MkHost {
  bgp_config : option (gmap string group);
  route_maps : option (list RouteMap.t);
  as_path_acl : option json;
  validated_peers : option (list string);
  community : option string;
  new_config : option string
}.

Definition empty_host : Host := MkHost None None None None None None.

Definition set_bgp_config (v : gmap string group) (h : Host) : Host :=
  MkHost (Some v) (route_maps h) (as_path_acl h) (validated_peers h)
         (community h) (new_config h).
Definition set_route_maps (v : list RouteMap.t) (h : Host) : Host :=
  MkHost (bgp_config h) (Some v) (as_path_acl h) (validated_peers h)
         (community h) (new_config h).
Definition set_as_path_acl (v : json) (h : Host) : Host :=
  MkHost (bgp_config h) (route_maps h) (Some v) (validated_peers h)
         (community h) (new_config h).
Definition set_validated_peers (v : list string) (h : Host) : Host :=
  MkHost (bgp_config h) (route_maps h) (as_path_acl h) (Some v)
         (community h) (new_config h).
Definition set_community (v : string) (h : Host) : Host :=
  MkHost (bgp_config h) (route_maps h) (as_path_acl h) (validated_peers h)
         (Some v) (new_config h).
Definition set_new_config (v : string) (h : Host) : Host :=
  MkHost (bgp_config h) (route_maps h) (as_path_acl h) (validated_peers h)
         (community h) (Some v).

(** A [for] loop whose body may raise, threading the loop state. *)
Fixpoint for_each {A S : Type} (body : S -> A -> result S) (l : list A) (s : S)
  : result S :=
  match l with
  | [] => Ok s
  | x :: l' => let* s' := body s x in for_each body l' s'
  end.

(** ** [get_bgp_config] *)

(** [if type(value) == dict: bgp_config[0][key] = [value]]. *)
Definition dict_to_list (value : group) : group :=
  match value with
  | GDict d => GList [d]
  | GList l => GList l
  end.

(** The task after the device and TTP have answered: [parsed] is
    [json.loads(parser.result(format='json')[0])]. *)
Definition get_bgp_config (parsed : list (gmap string group)) (h : Host)
  : result Host :=
  match parsed with
  | [] => Raise IndexError
  | cfg :: _ =>
      let cfg := dict_to_list <$> cfg in
      let cfg :=
        if decide (is_Some (cfg !! "neighbors")) then cfg
        else <["neighbors" := GList []]> cfg in
      Ok (set_bgp_config cfg h)
  end.

(** ** [get_route_maps] *)

(** [rows] is [output.result], the TextFSM table. *)
Definition get_route_maps (rows : list RouteMap.t) (h : Host) : result Host :=
  match rows with
  | _ :: _ => Ok (set_route_maps rows h)
  | [] => Ok (set_route_maps [] h)
  end.

(** ** [get_as_path] *)

(** [len(as_path)]. *)
Definition json_len (j : json) : nat :=
  match j with
  | JDict d => size d
  | JList l => length l
  end.

(** [while type(as_path[0]) == list: as_path = as_path.pop()].  Indexing a
    record with [0] is a [KeyError], indexing an empty list an
    [IndexError]; [pop] returns the last item. *)
Fixpoint unwrap_lists (as_path : json) : result json :=
  match as_path with
  | JDict _ => Raise (KeyError "0")
  | JList l =>
      match l with
      | [] => Raise IndexError
      | JDict _ :: _ => Ok as_path
      | JList _ :: _ =>
          (fix pop (items : list json) : result json :=
             match items with
             | [] => Raise IndexError
             | [item] => unwrap_lists item
             | _ :: items' => pop items'
             end) l
      end
  end.

(** [parsed] is [json.loads(parser.result(format='json')[0])]. *)
Definition get_as_path (parsed : json) (h : Host) : result Host :=
  let* as_path := (if (json_len parsed =? 0)%nat then Ok parsed
              else unwrap_lists parsed) in
  Ok (set_as_path_acl as_path h).

(** ** [validate_peer] *)

Definition networks : list string := ["10.254.254.0/24"; "11.0.0.0/8"].

(** The inner loop with its [break]: the flag [exclude_peer] at its end. *)
Fixpoint exclude_peer (peer_ip : Ipaddress.address) (nets : list string)
  : result bool :=
  match nets with
  | [] => Ok false
  | network :: rest =>
      let* net := Ipaddress.ip_network network in
      if Ipaddress.contains net peer_ip then Ok true
      else exclude_peer peer_ip rest
  end.

Section Tasks.
Context `{Ipv6Lib}.

(** One round of the loop over the neighbors. *)
Definition validate_neighbor (validated : list string)
    (neighbor : gmap string string) : result (list string) :=
  let* raw := getitem "peer_ip" (neighbor !! "peer_ip") in
  let* peer_ip := Ipaddress.ip_address raw in
  let* exclude := exclude_peer peer_ip networks in
  if exclude then Ok validated
  else Ok (validated ++ [Ipaddress.str peer_ip]).

(** Iterating over a bare record yields its keys, and indexing a key
    (a string) with ['peer_ip'] is a [TypeError]; an empty record or list
    is falsy and skips the loop. *)
Definition validate_peer (h : Host) : result Host :=
  let* cfg := getitem "bgp_config" (bgp_config h) in
  let* neighbors := getitem "neighbors" (cfg !! "neighbors") in
  let* validated :=
    match neighbors with
    | GList l => for_each validate_neighbor l []
    | GDict d => if decide (d = ∅) then Ok [] else Raise TypeError
    end in
  Ok (set_validated_peers validated h).

End Tasks.

(** ** [build_route_map] *)

(** The f-string of the CREATE_NEW branch before [textwrap.dedent]. *)
Definition new_route_map_template (community peer_ip : string) : string :=
  "
                    ip as-path access-list 1 permit ^$
                    route-map NEW_ROUTE_MAP permit 10
                     match as-path 1
                     set community " +:+ community +:+ "
                    route-map NEW_ROUTE_MAP deny 20                    
                    router bgp 65000
                     neighbor " +:+ peer_ip +:+ " route-map NEW_ROUTE_MAP out
                    ".

(** The loop over [task.host['route_maps']] of the other branch: each row
    is indexed with ['name'] and the matching rows are printed. *)
Definition inspect_route_maps (route_map_out : string)
    (rows : list RouteMap.t) : result unit :=
  for_each (fun _ route_map =>
              if decide (route_map_out = RouteMap.name route_map) then Ok ()
              else Ok ()) rows ().

(** [if 'route_map_out' not in neighbor: neighbor['route_map_out'] = 'NONE']. *)
Definition default_route_map_out (neighbor : gmap string string)
  : gmap string string :=
  if decide (is_Some (neighbor !! "route_map_out")) then neighbor
  else <["route_map_out" := "NONE"]> neighbor.

(** One round of the loop over the neighbors: the record as the round
    leaves it, and the configuration text so far. *)
Definition build_neighbor (h : Host) (st : list (gmap string string) * string)
    (neighbor : gmap string string)
  : result (list (gmap string string) * string) :=
  let '(done, new_config) := st in
  let neighbor := default_route_map_out neighbor in
  let* peer_ip := getitem "peer_ip" (neighbor !! "peer_ip") in
  let* route_map_out :=
    getitem "route_map_out" (neighbor !! "route_map_out") in
  let* validated := getitem "validated_peers" (validated_peers h) in
  if decide (peer_ip ∈ validated) then
    if decide (route_map_out = "NONE") then
      let* community := getitem "community" (community h) in
      Ok (done ++ [neighbor],
          new_config +:+
            Textwrap.dedent (new_route_map_template community peer_ip))
    else
      let* _ := getitem "as_path_acl" (as_path_acl h) in
      let* rows := getitem "route_maps" (route_maps h) in
      let* _ := inspect_route_maps route_map_out rows in
      Ok (done ++ [neighbor], new_config)
  else Ok (done ++ [neighbor], new_config).

(** The records are changed in place, so the host's [bgp_config] holds the
    changed records afterwards.  Iterating over a bare record yields its
    keys, on which the item assignment or the index is a [TypeError]. *)
Definition build_route_map (h : Host) : result Host :=
  let* cfg := getitem "bgp_config" (bgp_config h) in
  let* neighbors := getitem "neighbors" (cfg !! "neighbors") in
  match neighbors with
  | GList l =>
      let* '(l', new_config) :=
        for_each (build_neighbor h) l ([], EmptyString) in
      Ok (set_new_config new_config
            (set_bgp_config (<["neighbors" := GList l']> cfg) h))
  | GDict d =>
      if decide (d = ∅) then Ok (set_new_config EmptyString h)
      else Raise TypeError
  end.

(** The lines that the CREATE_NEW branch adds for one peer: the AS-path
    access list, the two route-map entries, and the binding of the
    route-map to the neighbor inside the [router bgp] stanza.  The text
    starts and ends with a line break, and the [deny 20] line keeps the
    twenty blanks that follow it in the source. *)
Definition new_route_map_lines (community peer_ip : string) : list string :=
  [""; "ip as-path access-list 1 permit ^$";
   "route-map NEW_ROUTE_MAP permit 10";
   " match as-path 1";
   " set community " +:+ community;
   "route-map NEW_ROUTE_MAP deny 20                    ";
   "router bgp 65000";
   " neighbor " +:+ peer_ip +:+ " route-map NEW_ROUTE_MAP out";
   ""].

(** ** [main], for one host *)

Section Main.
Context `{Ipv6Lib}.

(** Nornir runs the tasks one after the other and leaves out of a run
    the hosts on which an earlier task has failed; [print_results] only
    prints.  The three parses are what the device and the template
    engines returned for this host. *)
Definition main_host (bgp_parsed : list (gmap string group))
    (rows : list RouteMap.t) (as_path_parsed : json) (h : Host)
  : result Host :=
  let* h := get_bgp_config bgp_parsed h in
  let* h := get_route_maps rows h in
  let* h := get_as_path as_path_parsed h in
  let* h := validate_peer h in
  build_route_map h.
End Main.

(** ** Sample data *)

(** An IPv6 library that knows the loopback address only. *)
Definition loopback_ipv6 : Ipv6Lib := {|
  ipv6_int_from_string s := if decide (s = "::1") then Some 1 else None;
  ipv6_string_from_int _ := "::1"
|}.

(** A host whose inventory data holds the community to set. *)
Definition inventory_host (c : string) : Host := set_community c empty_host.

Definition neighbor_11 : gmap string string :=
  {["peer_ip" := "11.11.11.11"; "remote_as" := "65111"]}.
Definition neighbor_22 : gmap string string :=
  {["peer_ip" := "22.22.22.22"; "remote_as" := "65222"]}.
Definition neighbor_22_att : gmap string string :=
  {["peer_ip" := "22.22.22.22"; "remote_as" := "65222";
    "route_map_out" := "ATT_OUT"; "route_map_in" := "ATT_IN"]}.
Definition neighbor_bad : gmap string string :=
  {["peer_ip" := "22.22.22"; "remote_as" := "65222"]}.

(** [route-map ATT_OUT] with a permit entry at 10 and the closing deny at
    [deny_seq]. *)
Definition att_out_rows (deny_seq : string) : list RouteMap.t :=
  [RouteMap.Row "ATT_OUT" "permit" "10" ["as-path (as-path filter): 1"] [];
   RouteMap.Row "ATT_OUT" "deny" deny_seq [] []].

(** A device that already has [route-map NEW_ROUTE_MAP] and the AS-path
    access list 1, both for another purpose. *)
Definition taken_rows : list RouteMap.t :=
  [RouteMap.Row "NEW_ROUTE_MAP" "permit" "10" ["ip address prefix-lists: LAN"]
     ["local-preference 200"]].
Definition as_path_one (pattern : string) : json :=
  JList [JDict {["as_path_acl" := "1"; "action" := "permit";
                 "as_path_match" := pattern]}].

(** A host as the first four tasks leave it. *)
Definition staged_host (l : list (gmap string string))
    (rows : list RouteMap.t) (acl : json) (validated : list string)
    (c : string) : Host :=
  MkHost (Some {["neighbors" := GList l]}) (Some rows) (Some acl)
         (Some validated) (Some c) None.

(** Joining the last piece of the first list with the first piece of
    the second one: what splitting does to a concatenation. *)
Fixpoint splice (la lb : list string) : list string :=
  match la with
  | [] => lb
  | [a] => match lb with
           | b :: lb' => (a +:+ b) :: lb'
           | [] => [a]
           end
  | a :: la' => a :: splice la' lb
  end.

(** A value inside [k] enclosing one-item lists. *)
Fixpoint enclose (k : nat) (j : json) : json :=
  match k with
  | O => j
  | S k' => JList [enclose k' j]
  end.

(** The two exclusion ranges, as sets of dotted quads. *)
Definition in_10_254_254_0_24 (a : Ipaddress.address) : Prop :=
  exists d, 0 <= d <= 255
    /\ a = Ipaddress.IPv4Address (Ipaddress.from_bytes [10; 254; 254; d]).

Definition in_11_0_0_0_8 (a : Ipaddress.address) : Prop :=
  exists b c d, 0 <= b <= 255 /\ 0 <= c <= 255 /\ 0 <= d <= 255
    /\ a = Ipaddress.IPv4Address (Ipaddress.from_bytes [11; b; c; d]).

(** The flag [exclude_peer] of an address, with the two ranges parsed. *)
Definition excluded (a : Ipaddress.address) : bool :=
  Ipaddress.contains
    (Ipaddress.Network 4 184483328 (Ipaddress.ip_int_from_prefix 24)) a
  || Ipaddress.contains
       (Ipaddress.Network 4 184549376 (Ipaddress.ip_int_from_prefix 8)) a.

(** An IPv6 library that knows one address, which IOS writes in capitals
    and Python prints in small letters. *)
Definition ios_ipv6 : Ipv6Lib := {|
  ipv6_int_from_string s :=
    if decide (s = "2001:DB8::1" \/ s = "2001:db8::1")
    then Some 42540766411282592856903984951653826561 else None;
  ipv6_string_from_int _ := "2001:db8::1"
|}.

(** The record has a peer address that [ipaddress.ip_address] accepts. *)
Definition parses_to `{Ipv6Lib} (neighbor : gmap string string)
    (a : Ipaddress.address) : Prop :=
  exists s, neighbor !! "peer_ip" = Some s /\ Ipaddress.ip_address s = Ok a.

(** The peer of a record for which a round of [build_route_map] takes the
    create-new branch: a validated peer without outbound route-map. *)
Definition wants_route_map (validated : list string)
    (neighbor : gmap string string) : option string :=
  match neighbor !! "peer_ip" with
  | Some peer_ip =>
      if decide (peer_ip ∈ validated) then
        match neighbor !! "route_map_out" with
        | None => Some peer_ip
        | Some rm => if decide (rm = "NONE") then Some peer_ip else None
        end
      else None
  | None => None
  end.

(** The text that the round of a record adds. *)
Definition emitted (validated : list string) (c : string)
    (neighbor : gmap string string) : string :=
  match wants_route_map validated neighbor with
  | Some peer_ip => Textwrap.dedent (new_route_map_template c peer_ip)
  | None => ""
  end.

(** [''.join(l)]. *)
Definition concat_strings (l : list string) : string :=
  foldr String.append "" l.

(** The neighbor records of a parse, as [get_bgp_config] stores them. *)
Definition neighbor_records (cfg : gmap string group)
  : list (gmap string string) :=
  match cfg !! "neighbors" with
  | Some (GDict d) => [d]
  | Some (GList l) => l
  | None => []
  end.

(** * The VLAN mapper, [vlan_mapper/vlan_mapper.py] *)

(** A Python dictionary whose order of insertion matters, here because
    the loops over it may raise: the pairs in that order, without repeated
    keys.  [d[k] = v] replaces the value of a key in place and puts a new
    key at the end. *)
Fixpoint dict_set {V : Type} (k : string) (v : V) (d : list (string * V))
  : list (string * V) :=
  match d with
  | [] => [(k, v)]
  | (k', v') :: d' =>
      if decide (k' = k) then (k, v) :: d' else (k', v') :: dict_set k v d'
  end.

(** One round of the loop over the interfaces of a host in
    [create_intf_dict]; [intf] is a row of [show interface switchport] as
    TextFSM returns it. *)
Definition add_intf (intf_out : list (string * gmap string string))
    (intf : gmap string string)
  : result (list (string * gmap string string)) :=
  let* intf_name := getitem "interface" (intf !! "interface") in
  let* intf_mode := getitem "mode" (intf !! "mode") in
  if decide (intf_mode = "access" \/ intf_mode = "static access") then
    let* access_vlan := getitem "access_vlan" (intf !! "access_vlan") in
    if decide (access_vlan <> "1") then
      let* vlans := getitem "access_vlan" (intf !! "access_vlan") in
      let* voice := getitem "voice_vlan" (intf !! "voice_vlan") in
      Ok (dict_set intf_name
            {["mode" := intf_mode; "vlans" := vlans; "voice" := voice]}
            intf_out)
    else Ok intf_out
  else if decide (intf_mode = "trunk") then
    let* vlans := getitem "trunking_vlans" (intf !! "trunking_vlans") in
    let* native := getitem "native_vlan" (intf !! "native_vlan") in
    Ok (dict_set intf_name
          {["mode" := intf_mode; "vlans" := vlans; "native" := native]}
          intf_out)
  else Ok intf_out.

(** [results] holds, for each host, the rows of its command result. *)
Definition create_intf_dict
    (results : list (string * list (gmap string string)))
  : result (list (string * list (string * gmap string string))) :=
  for_each (fun all_hosts_intf '(host, interfaces) =>
              let* intf_out := for_each add_intf interfaces [] in
              Ok (dict_set host intf_out all_hosts_intf))
           results [].

Definition vlan_mapper (mapping_dict : gmap string string) (vlan : string)
  : string :=
  match mapping_dict !! vlan with
  | Some new_vlan => new_vlan
  | None => vlan
  end.

(** The first [if] of the inner loop of [remap_vlans]: a port in access
    mode. *)
Definition remap_access (mapping_dict : gmap string string)
    (intf : gmap string string) : result (gmap string string) :=
  let* mode := getitem "mode" (intf !! "mode") in
  if decide (mode = "access") then
    let* vlans := getitem "vlans" (intf !! "vlans") in
    let intf := <["vlans" := vlan_mapper mapping_dict vlans]> intf in
    let* voice := getitem "voice" (intf !! "voice") in
    if decide (voice <> "none") then
      Ok (<["voice" := vlan_mapper mapping_dict voice]> intf)
    else Ok intf
  else Ok intf.

(** The second [if]: a port in trunk mode. *)
Definition remap_trunk (mapping_dict : gmap string string)
    (intf : gmap string string) : result (gmap string string) :=
  let* mode := getitem "mode" (intf !! "mode") in
  if decide (mode = "trunk") then
    let* vlans := getitem "vlans" (intf !! "vlans") in
    let vlans := vlan_mapper mapping_dict <$> Str.split ","%char vlans in
    let intf := <["vlans" := Str.join "," vlans]> intf in
    let* native := getitem "native" (intf !! "native") in
    Ok (<["native" := vlan_mapper mapping_dict native]> intf)
  else Ok intf.

(** One round of the inner loop of [remap_vlans]: the record of an
    interface as the round leaves it. *)
Definition remap_intf (mapping_dict : gmap string string)
    (intf : gmap string string) : result (gmap string string) :=
  let* intf := remap_access mapping_dict intf in
  remap_trunk mapping_dict intf.

(** The loop over the interfaces of one host. *)
Definition remap_host (mapping_dict : gmap string string)
    (host : list (string * gmap string string))
  : result (list (string * gmap string string)) :=
  for_each (fun done '(name, intf) =>
              let* intf := remap_intf mapping_dict intf in
              Ok (done ++ [(name, intf)]))
           host [].

(** The records are changed in place and the dictionary is returned. *)
Definition remap_vlans (mapping_dict : gmap string string)
    (all_hosts_intf : list (string * list (string * gmap string string)))
  : result (list (string * list (string * gmap string string))) :=
  for_each (fun done '(name, host) =>
              let* host := remap_host mapping_dict host in
              Ok (done ++ [(name, host)]))
           all_hosts_intf [].

(** A record as [create_intf_dict] writes it. *)
Definition intf_record (intf : gmap string string) : Prop :=
  exists mode vlans,
    (mode = "access" \/ mode = "static access")
    /\ vlans <> "1"
    /\ (exists voice,
          intf = {["mode" := mode; "vlans" := vlans; "voice" := voice]})
    \/ mode = "trunk"
       /\ exists native,
            intf = {["mode" := mode; "vlans" := vlans; "native" := native]}.

(** Rows of [show interface switchport]. *)
Definition switchport_row (name mode access voice trunking native : string)
  : gmap string string :=
  {["interface" := name; "mode" := mode; "access_vlan" := access;
    "voice_vlan" := voice; "trunking_vlans" := trunking;
    "native_vlan" := native]}.

(** A neighbor as IOS writes an IPv6 peer. *)
Definition neighbor_v6 : gmap string string :=
  {["peer_ip" := "2001:DB8::1"; "remote_as" := "65001"]}.
Definition neighbor_10 : gmap string string :=
  {["peer_ip" := "10.254.254.5"; "remote_as" := "65010"]}.

(** The inner part of [unwrap_lists]: going on with the last item. *)
Definition unwrap_last : list json -> result json :=
  fix pop (items : list json) : result json :=
    match items with
    | [] => Raise IndexError
    | [item] => unwrap_lists item
    | _ :: items' => pop items'
    end.

(** * Properties *)

(** ** Strings *)

Section StrFacts.
Variable sep : ascii.

Lemma split_not_nil s : Str.split sep s <> [].
Proof.
  destruct s as [|c s]; simpl; [done|].
  destruct (decide (c = sep)); [done|].
  destruct (Str.split sep s); done.
Qed.

Lemma split_app a b :
  Str.split sep (a +:+ b) = splice (Str.split sep a) (Str.split sep b).
Proof.
  induction a as [|c a IH].
  - change (EmptyString +:+ b) with b. simpl.
    pose proof (split_not_nil b). by destruct (Str.split sep b).
  - change (String c a +:+ b) with (String c (a +:+ b)). simpl.
    pose proof (split_not_nil a) as Ha.
    destruct (decide (c = sep)).
    + rewrite IH. by destruct (Str.split sep a).
    + rewrite IH. destruct (Str.split sep a) as [|l [|l2 ls]]; [done| |done].
      simpl. pose proof (split_not_nil b). by destruct (Str.split sep b).
Qed.

Lemma split_lacks a : Str.lacks sep a = true -> Str.split sep a = [a].
Proof.
  induction a as [|c a IH]; simpl; [done|].
  intros [Hc Ha]%andb_true_iff. rewrite IH by done.
  destruct (decide (c = sep)) as [->|]; [|done].
  by rewrite bool_decide_eq_true_2 in Hc.
Qed.
End StrFacts.

Lemma string_app_empty_r s : s +:+ "" = s.
Proof.
  induction s as [|c s IH]; [done|].
  change (String c s +:+ "") with (String c (s +:+ "")). by rewrite IH.
Qed.

Lemma template_lines c p :
  Str.lacks Str.newline c = true -> Str.lacks Str.newline p = true ->
  Str.lines (new_route_map_template c p)
  = [""; "                    ip as-path access-list 1 permit ^$";
     "                    route-map NEW_ROUTE_MAP permit 10";
     "                     match as-path 1";
     "                     set community " +:+ c;
     "                    route-map NEW_ROUTE_MAP deny 20                    ";
     "                    router bgp 65000";
     "                     neighbor " +:+ p +:+ " route-map NEW_ROUTE_MAP out";
     "                    "].
Proof.
  intros Hc Hp. unfold Str.lines, new_route_map_template.
  rewrite !split_app, (split_lacks _ c Hc), (split_lacks _ p Hp).
  vm_compute. repeat f_equal. exact (string_app_empty_r c).
Qed.

Lemma dedent_template c p :
  Str.lacks Str.newline c = true -> Str.lacks Str.newline p = true ->
  Textwrap.dedent (new_route_map_template c p)
  = Str.unlines (new_route_map_lines c p).
Proof.
  intros Hc Hp. unfold Textwrap.dedent.
  rewrite (template_lines c p Hc Hp). vm_compute. reflexivity.
Qed.

(** ** Addresses and networks *)

Section IpFacts.
Import Ipaddress.

Lemma int_of_digits_nonneg s acc :
  0 <= acc -> Str.all is_digit s = true -> 0 <= int_of_digits acc s.
Proof.
  revert acc. induction s as [|c s IH]; simpl; intros acc Hacc Hs; [done|].
  apply andb_true_iff in Hs as [Hc Hs]. apply IH; [|done].
  unfold is_digit in Hc. apply andb_true_iff in Hc as [Hc _].
  apply Z.leb_le in Hc. lia.
Qed.

Lemma parse_octet_range s v : parse_octet s = Some v -> 0 <= v <= 255.
Proof.
  unfold parse_octet. destruct s as [|c0 s]; [done|].
  destruct (Str.all is_digit (String c0 s)) eqn:Hd; simpl; [|done].
  repeat case_match; try done. intros [= <-]. split.
  - by apply (int_of_digits_nonneg (String c0 s) 0).
  - by apply Z.ltb_ge.
Qed.

Lemma mapM_parse_octet_range l bs :
  mapM parse_octet l = Some bs -> Forall (fun b => 0 <= b <= 255) bs.
Proof.
  intros Hl. apply mapM_Some in Hl.
  induction Hl as [|s b l bs Hs _ IH]; constructor; [|done].
  by eapply parse_octet_range.
Qed.

Lemma ipv4_address_range s ip : ipv4_address s = Some ip -> 0 <= ip < 2 ^ 32.
Proof.
  unfold ipv4_address, ip_int_from_string.
  destruct (negb (Str.lacks "/" s)); [done|].
  destruct s as [|c s]; [done|].
  set (octets := Str.split "." (String c s)).
  destruct (length octets =? 4)%nat eqn:Hlen; cbn [negb]; [|done].
  apply Nat.eqb_eq in Hlen.
  destruct (mapM parse_octet octets) as [bs|] eqn:Hbs; [|done].
  cbn [fmap option_fmap option_map].
  intros [= <-]. pose proof (mapM_parse_octet_range _ _ Hbs) as Hr.
  apply mapM_Some, Forall2_length in Hbs. rewrite Hlen in Hbs.
  destruct bs as [|b0 [|b1 [|b2 [|b3 [|]]]]]; try done.
  repeat match goal with H : Forall _ (_ :: _) |- _ =>
    apply Forall_cons in H as [? H] end.
  unfold from_bytes. simpl. lia.
Qed.

(** The netmask keeps the network part of an address. *)
Lemma land_netmask ip prefixlen :
  0 <= prefixlen <= 32 -> 0 <= ip < 2 ^ 32 ->
  Z.land ip (ip_int_from_prefix prefixlen)
  = ip / 2 ^ (32 - prefixlen) * 2 ^ (32 - prefixlen).
Proof.
  intros Hp Hip. apply Z.bits_inj'. intros i Hi.
  unfold ip_int_from_prefix, ALL_ONES.
  change (2 ^ 32 - 1) with (Z.ones 32).
  rewrite Z.land_spec, Z.lxor_spec, Z.shiftr_spec by done.
  rewrite !Z.testbit_ones_nonneg by lia.
  destruct (Z.lt_ge_cases i (32 - prefixlen)) as [Hlow|Hhigh].
  - rewrite Z.mul_pow2_bits_low by lia.
    replace (i <? 32) with true by (symmetry; apply Z.ltb_lt; lia).
    replace (i + prefixlen <? 32) with true by (symmetry; apply Z.ltb_lt; lia).
    apply andb_false_r.
  - rewrite Z.mul_pow2_bits, Z.div_pow2_bits by lia.
    replace (i - (32 - prefixlen) + (32 - prefixlen)) with i by lia.
    replace (i + prefixlen <? 32) with false by (symmetry; apply Z.ltb_ge; lia).
    destruct (Z.lt_ge_cases i 32) as [Hin|Hout].
    + replace (i <? 32) with true by (symmetry; apply Z.ltb_lt; lia).
      apply andb_true_r.
    + rewrite (Z.bits_above_log2 ip i); [done|lia|].
      destruct (decide (ip = 0)) as [->|]; [simpl; lia|].
      assert (2 ^ 32 <= 2 ^ i) by (apply Z.pow_le_mono_r; lia).
      apply Z.log2_lt_pow2; lia.
Qed.

Lemma networks_parse :
  ip_network "10.254.254.0/24" = Ok (Network 4 184483328 (ip_int_from_prefix 24))
  /\ ip_network "11.0.0.0/8" = Ok (Network 4 184549376 (ip_int_from_prefix 8)).
Proof. split; vm_compute; reflexivity. Qed.

Lemma contains_24 ip :
  0 <= ip < 2 ^ 32 ->
  contains (Network 4 184483328 (ip_int_from_prefix 24)) (IPv4Address ip) = true
  <-> 184483328 <= ip <= 184483583.
Proof.
  intros Hip. unfold contains. simpl.
  rewrite land_netmask by lia. rewrite Z.eqb_eq.
  change (2 ^ (32 - 24)) with 256. change (2 ^ 32) with 4294967296 in Hip.
  Z.div_mod_to_equations. lia.
Qed.

Lemma contains_8 ip :
  0 <= ip < 2 ^ 32 ->
  contains (Network 4 184549376 (ip_int_from_prefix 8)) (IPv4Address ip) = true
  <-> 184549376 <= ip <= 201326591.
Proof.
  intros Hip. unfold contains. simpl.
  rewrite land_netmask by lia. rewrite Z.eqb_eq.
  change (2 ^ (32 - 8)) with 16777216. change (2 ^ 32) with 4294967296 in Hip.
  Z.div_mod_to_equations. lia.
Qed.

Lemma contains_ipv6 net ip :
  version net = 4 -> contains net (IPv6Address ip) = false.
Proof. intros Hv. unfold contains. by rewrite Hv. Qed.

End IpFacts.

(** ** The parser clean-up *)

Lemma get_bgp_config_ok cfg rest h :
  get_bgp_config (cfg :: rest) h
  = Ok (set_bgp_config
          (if decide (is_Some ((dict_to_list <$> cfg) !! "neighbors"))
           then dict_to_list <$> cfg
           else <["neighbors" := GList []]> (dict_to_list <$> cfg)) h).
Proof. reflexivity. Qed.

Lemma get_bgp_config_lookup cfg rest h key :
  exists h' cfg',
    get_bgp_config (cfg :: rest) h = Ok h'
    /\ bgp_config h' = Some cfg'
    /\ cfg' !! key
       = match cfg !! key with
         | Some v => Some (dict_to_list v)
         | None => if decide (key = "neighbors") then Some (GList []) else None
         end.
Proof.
  eexists _, _. split; [apply get_bgp_config_ok|]. split; [done|].
  case_decide as Hn.
  - rewrite lookup_fmap. destruct (cfg !! key) eqn:Hk; simpl; [done|].
    case_decide as Hkey; [|done]. subst key.
    rewrite lookup_fmap, Hk in Hn. by destruct Hn.
  - rewrite lookup_insert. case_decide as Hkey.
    + subst key. rewrite lookup_fmap in Hn.
      destruct (cfg !! "neighbors") eqn:Hk; simpl in *; [|done].
      destruct Hn. by eexists.
    + rewrite lookup_fmap. destruct (cfg !! key); simpl; [done|].
      by rewrite decide_False.
Qed.

(** A parse that holds a result record without [neighbors] group (no
    neighbor line matched): [get_bgp_config] completes without an exception
    and the stored configuration binds the key [neighbors] to the empty
    list: the key is not missing and its value is not a bare record. *)
Theorem get_bgp_config_no_neighbors cfg rest h :
  cfg !! "neighbors" = None ->
  exists h' cfg',
    get_bgp_config (cfg :: rest) h = Ok h'
    /\ bgp_config h' = Some cfg'
    /\ cfg' !! "neighbors" = Some (GList []).
Proof.
  intros Hn.
  destruct (get_bgp_config_lookup cfg rest h "neighbors") as (h' & cfg' & ? & ? & Hl).
  exists h', cfg'. rewrite Hn in Hl. by rewrite decide_True in Hl.
Qed.

Lemma get_bgp_config_no_neighbors_witness :
  exists h' cfg',
    get_bgp_config
      [{["networks" := GDict {["network" := "10.10.192.0";
                               "mask" := "255.255.255.0"]}]}] empty_host
    = Ok h'
    /\ bgp_config h' = Some cfg'
    /\ cfg' !! "neighbors" = Some (GList []).
Proof. apply get_bgp_config_no_neighbors. reflexivity. Defined.

Lemma get_bgp_config_neighbors_list cfg rest h :
  exists h' cfg' l,
    get_bgp_config (cfg :: rest) h = Ok h'
    /\ bgp_config h' = Some cfg'
    /\ cfg' !! "neighbors" = Some (GList l).
Proof.
  destruct (get_bgp_config_lookup cfg rest h "neighbors") as (h' & cfg' & ? & ? & Hl).
  destruct (cfg !! "neighbors") as [[d|l]|]; simpl in Hl;
    eexists h', cfg', _; eauto.
Qed.

Lemma unwrap_lists_enclose k d :
  unwrap_lists (enclose (S k) (JDict d)) = Ok (JList [JDict d]).
Proof. induction k as [|k IH]; [done|]. simpl in *. exact IH. Qed.

(** C9. A parse with exactly one match comes out as a one-item list: a
    BGP group that TTP returned as a bare record is stored as the list of
    that one record, and an AS-path parse whose single record sits inside
    any number of enclosing lists is stored as the flat list of that one
    record. *)
Theorem single_match_is_one_item_list cfg rest h key d k :
  cfg !! key = Some (GDict d) ->
  (exists h' cfg',
     get_bgp_config (cfg :: rest) h = Ok h'
     /\ bgp_config h' = Some cfg'
     /\ cfg' !! key = Some (GList [d]))
  /\ get_as_path (enclose (S k) (JDict d)) h
     = Ok (set_as_path_acl (JList [JDict d]) h).
Proof.
  intros Hk. split.
  - destruct (get_bgp_config_lookup cfg rest h key) as (h' & cfg' & ? & ? & Hl).
    exists h', cfg'. by rewrite Hk in Hl.
  - unfold get_as_path. change (json_len (enclose (S k) (JDict d))) with 1%nat.
    simpl Nat.eqb. cbv iota. by rewrite unwrap_lists_enclose.
Qed.

Lemma single_match_is_one_item_list_witness :
  let d : gmap string string :=
    {["peer_ip" := "22.22.22.22"; "remote_as" := "65222"]} in
  (exists h' cfg',
     get_bgp_config [{["neighbors" := GDict d]}] empty_host = Ok h'
     /\ bgp_config h' = Some cfg'
     /\ cfg' !! "neighbors" = Some (GList [d]))
  /\ get_as_path (enclose 2 (JDict d)) empty_host
     = Ok (set_as_path_acl (JList [JDict d]) empty_host).
Proof.
  intros d.
  apply (single_match_is_one_item_list {["neighbors" := GDict d]} []
           empty_host "neighbors" d 1).
  reflexivity.
Defined.

(** ** Peer validation *)

Lemma in_10_254_254_0_24_range ip :
  in_10_254_254_0_24 (Ipaddress.IPv4Address ip)
  <-> 184483328 <= ip <= 184483583.
Proof.
  unfold in_10_254_254_0_24, Ipaddress.from_bytes. simpl. split.
  - intros (d & Hd & [= ->]). lia.
  - intros Hip. exists (ip - 184483328). split; [lia|]. f_equal. lia.
Qed.

Lemma in_11_0_0_0_8_range ip :
  in_11_0_0_0_8 (Ipaddress.IPv4Address ip) <-> 184549376 <= ip <= 201326591.
Proof.
  unfold in_11_0_0_0_8, Ipaddress.from_bytes. simpl. split.
  - intros (b & c & d & Hb & Hc & Hd & [= ->]). lia.
  - intros Hip.
    exists ((ip - 184549376) / 65536), ((ip - 184549376) / 256 mod 256),
           (ip mod 256).
    repeat split; try (Z.div_mod_to_equations; lia).
    f_equal. Z.div_mod_to_equations. lia.
Qed.

Lemma exclude_peer_networks a :
  exclude_peer a networks
  = Ok (Ipaddress.contains
          (Ipaddress.Network 4 184483328 (Ipaddress.ip_int_from_prefix 24)) a
        || Ipaddress.contains
             (Ipaddress.Network 4 184549376 (Ipaddress.ip_int_from_prefix 8)) a).
Proof.
  unfold networks. cbn [exclude_peer].
  destruct networks_parse as [-> ->]. cbn [bind].
  by repeat destruct (Ipaddress.contains _ a).
Qed.

Lemma exclude_peer_first network net rest a :
  Ipaddress.ip_network network = Ok net ->
  Ipaddress.contains net a = true ->
  exclude_peer a (network :: rest) = Ok true.
Proof. intros Hn Hc. cbn [exclude_peer]. rewrite Hn. cbn [bind]. by rewrite Hc. Qed.

Section ValidateFacts.
Context `{Ipv6Lib}.

Lemma ip_address_raises s e :
  Ipaddress.ip_address s = Raise e -> e = ValueError.
Proof. unfold Ipaddress.ip_address. repeat case_match; congruence. Qed.

Lemma ip_address_ipv4_range s ip :
  Ipaddress.ip_address s = Ok (Ipaddress.IPv4Address ip) -> 0 <= ip < 2 ^ 32.
Proof.
  unfold Ipaddress.ip_address.
  destruct (Ipaddress.ipv4_address s) as [ip'|] eqn:Hs.
  - intros [= <-]. by eapply ipv4_address_range.
  - by destruct (ipv6_int_from_string s).
Qed.

Lemma excluded_iff s a :
  Ipaddress.ip_address s = Ok a ->
  (Ipaddress.contains
     (Ipaddress.Network 4 184483328 (Ipaddress.ip_int_from_prefix 24)) a
   || Ipaddress.contains
        (Ipaddress.Network 4 184549376 (Ipaddress.ip_int_from_prefix 8)) a)
  = true
  <-> in_10_254_254_0_24 a \/ in_11_0_0_0_8 a.
Proof.
  intros Hs. rewrite orb_true_iff. destruct a as [ip|ip].
  - pose proof (ip_address_ipv4_range _ _ Hs) as Hip.
    by rewrite contains_24, contains_8, in_10_254_254_0_24_range,
      in_11_0_0_0_8_range.
  - rewrite !contains_ipv6 by done. split; [by intros [|]|].
    by intros [(? & _ & ?)|(? & ? & ? & _ & _ & _ & ?)].
Qed.

Lemma validate_neighbor_ok validated neighbor s a :
  neighbor !! "peer_ip" = Some s ->
  Ipaddress.ip_address s = Ok a ->
  exists exclude,
    exclude_peer a networks = Ok exclude
    /\ validate_neighbor validated neighbor
       = Ok (if exclude then validated
             else validated ++ [Ipaddress.str a]).
Proof.
  intros Hn Hs. eexists. split; [apply exclude_peer_networks|].
  unfold validate_neighbor. rewrite Hn. cbn [getitem bind]. rewrite Hs.
  cbn [bind]. rewrite exclude_peer_networks. cbn [bind].
  by destruct (_ || _).
Qed.

(** C3. For a well-formed peer address the flag [exclude_peer] is set
    exactly when the address is 10.254.254.d or 11.b.c.d, that is, lies
    in 10.254.254.0/24 or in 11.0.0.0/8; an excluded peer leaves the list
    of validated peers as it is and every other peer is appended to it;
    and the ranges are tried in order, a range that contains the address
    ending the search whatever follows it in the list. *)
Theorem excluded_iff_in_exclusion_range s a :
  Ipaddress.ip_address s = Ok a ->
  exists exclude,
    exclude_peer a networks = Ok exclude
    /\ (exclude = true <-> in_10_254_254_0_24 a \/ in_11_0_0_0_8 a)
    /\ (forall validated neighbor,
          neighbor !! "peer_ip" = Some s ->
          validate_neighbor validated neighbor
          = Ok (if exclude then validated
                else validated ++ [Ipaddress.str a]))
    /\ (forall network net rest,
          Ipaddress.ip_network network = Ok net ->
          Ipaddress.contains net a = true ->
          exclude_peer a (network :: rest) = Ok true).
Proof.
  intros Hs. eexists. split; [apply exclude_peer_networks|].
  split; [by apply (excluded_iff s)|]. split.
  - intros validated neighbor Hn.
    destruct (validate_neighbor_ok validated neighbor s a Hn Hs)
      as (b & Hb & ->).
    rewrite exclude_peer_networks in Hb. by injection Hb as <-.
  - intros network net rest. apply exclude_peer_first.
Qed.

Lemma for_each_validate_raises l validated neighbor s :
  Forall (fun n : gmap string string => is_Some (n !! "peer_ip")) l ->
  neighbor ∈ l ->
  neighbor !! "peer_ip" = Some s ->
  Ipaddress.ip_address s = Raise ValueError ->
  for_each validate_neighbor l validated = Raise ValueError.
Proof.
  intros Hall Hin Hn Hs. revert validated.
  induction Hall as [|n l [raw Hraw] Hall IH]; intros validated.
  { by apply elem_of_nil in Hin. }
  cbn [for_each].
  destruct (Ipaddress.ip_address raw) as [a|e] eqn:Hparse.
  - destruct (validate_neighbor_ok validated n raw a Hraw Hparse)
      as (b & _ & ->).
    cbn [bind]. apply IH.
    apply elem_of_cons in Hin as [->|Hin]; [|done].
    congruence.
  - unfold validate_neighbor. rewrite Hraw. cbn [getitem bind].
    rewrite Hparse. cbn [bind]. by rewrite (ip_address_raises _ _ Hparse).
Qed.

(** C7. A peer address that [ipaddress.ip_address] does not accept makes
    the round of the validation loop raise [ValueError], and with it the
    whole task: the peer lands neither among the validated peers nor
    among the excluded ones, and no validated list is stored. *)
Theorem malformed_peer_ip_raises h cfg l neighbor s :
  bgp_config h = Some cfg ->
  cfg !! "neighbors" = Some (GList l) ->
  Forall (fun n : gmap string string => is_Some (n !! "peer_ip")) l ->
  neighbor ∈ l ->
  neighbor !! "peer_ip" = Some s ->
  Ipaddress.ip_address s = Raise ValueError ->
  (forall validated, validate_neighbor validated neighbor = Raise ValueError)
  /\ validate_peer h = Raise ValueError.
Proof.
  intros Hcfg Hl Hall Hin Hn Hs. split.
  - intros validated. unfold validate_neighbor. rewrite Hn.
    cbn [getitem bind]. by rewrite Hs.
  - unfold validate_peer. rewrite Hcfg. cbn [getitem bind]. rewrite Hl.
    cbn [getitem bind].
    by rewrite (for_each_validate_raises l [] neighbor s).
Qed.

End ValidateFacts.

(** ** Route-map synthesis *)

Lemma string_app_assoc a b c : (a +:+ b) +:+ c = a +:+ b +:+ c.
Proof.
  induction a as [|x a IH]; [done|].
  change (String x (a +:+ b) +:+ c = String x (a +:+ b +:+ c)).
  change (String x ((a +:+ b) +:+ c) = String x (a +:+ b +:+ c)).
  by rewrite IH.
Qed.

Lemma for_each_app {A S : Type} (body : S -> A -> result S) l1 l2 s :
  for_each body (l1 ++ l2) s
  = let* s' := for_each body l1 s in for_each body l2 s'.
Proof.
  revert s. induction l1 as [|x l1 IH]; intros s; [done|].
  cbn [for_each app]. destruct (body s x); cbn [bind]; [apply IH|done].
Qed.

Section DefaultRouteMapOut.
Variable neighbor : gmap string string.

Lemma default_route_map_out_is_Some :
  is_Some (default_route_map_out neighbor !! "route_map_out").
Proof.
  unfold default_route_map_out. case_decide; [done|].
  rewrite lookup_insert_eq. by eexists.
Qed.

Lemma default_route_map_out_other key :
  key <> "route_map_out" ->
  default_route_map_out neighbor !! key = neighbor !! key.
Proof.
  intros Hk. unfold default_route_map_out. case_decide; [done|].
  by rewrite lookup_insert_ne.
Qed.

Lemma default_route_map_out_present :
  is_Some (neighbor !! "route_map_out") ->
  default_route_map_out neighbor = neighbor.
Proof. intros Hs. unfold default_route_map_out. by rewrite decide_True. Qed.

Lemma default_route_map_out_absent :
  neighbor !! "route_map_out" = None ->
  default_route_map_out neighbor !! "route_map_out" = Some "NONE".
Proof.
  intros Hn. unfold default_route_map_out.
  rewrite decide_False; [apply lookup_insert_eq|].
  rewrite Hn. by intros [? ?].
Qed.

Lemma default_route_map_out_none :
  neighbor !! "route_map_out" = None
  \/ neighbor !! "route_map_out" = Some "NONE" ->
  default_route_map_out neighbor !! "route_map_out" = Some "NONE".
Proof.
  intros [Hn|Hn]; [by apply default_route_map_out_absent|].
  by rewrite default_route_map_out_present.
Qed.
End DefaultRouteMapOut.

Lemma inspect_route_maps_ok route_map_out rows :
  inspect_route_maps route_map_out rows = Ok ().
Proof.
  unfold inspect_route_maps. induction rows as [|row rows IH]; [done|].
  cbn [for_each]. by case_decide.
Qed.

(** The three ways a round can go. *)
Lemma build_neighbor_skip h done text neighbor peer_ip validated :
  neighbor !! "peer_ip" = Some peer_ip ->
  validated_peers h = Some validated ->
  peer_ip ∉ validated ->
  build_neighbor h (done, text) neighbor
  = Ok (done ++ [default_route_map_out neighbor], text).
Proof.
  intros Hp Hv Hnot. unfold build_neighbor.
  rewrite default_route_map_out_other, Hp by done.
  destruct (default_route_map_out_is_Some neighbor) as [rm ->].
  rewrite Hv. cbn [getitem bind]. by rewrite decide_False.
Qed.

Lemma build_neighbor_create h done text neighbor peer_ip validated c :
  neighbor !! "peer_ip" = Some peer_ip ->
  validated_peers h = Some validated ->
  peer_ip ∈ validated ->
  neighbor !! "route_map_out" = None
  \/ neighbor !! "route_map_out" = Some "NONE" ->
  community h = Some c ->
  build_neighbor h (done, text) neighbor
  = Ok (done ++ [default_route_map_out neighbor],
        text +:+ Textwrap.dedent (new_route_map_template c peer_ip)).
Proof.
  intros Hp Hv Hin Hrm Hc. unfold build_neighbor.
  rewrite default_route_map_out_other, Hp by done.
  rewrite default_route_map_out_none, Hv, Hc by done.
  cbn [getitem bind]. by rewrite !decide_True.
Qed.

Lemma build_neighbor_existing h done text neighbor peer_ip validated rm acl rows :
  neighbor !! "peer_ip" = Some peer_ip ->
  validated_peers h = Some validated ->
  peer_ip ∈ validated ->
  neighbor !! "route_map_out" = Some rm ->
  rm <> "NONE" ->
  as_path_acl h = Some acl ->
  route_maps h = Some rows ->
  build_neighbor h (done, text) neighbor = Ok (done ++ [neighbor], text).
Proof.
  intros Hp Hv Hin Hrm Hne Hacl Hrows. unfold build_neighbor.
  rewrite default_route_map_out_present by (by rewrite Hrm).
  rewrite Hp, Hrm, Hv, Hacl, Hrows. cbn [getitem bind].
  rewrite decide_True, decide_False by done.
  by rewrite inspect_route_maps_ok.
Qed.

(** A round that completes leaves the record with its default filled in
    and only ever adds text at the end. *)
Lemma build_neighbor_inv h done text neighbor done' text' :
  build_neighbor h (done, text) neighbor = Ok (done', text') ->
  done' = done ++ [default_route_map_out neighbor]
  /\ exists added, text' = text +:+ added.
Proof.
  unfold build_neighbor, bind, getitem. intros Hb.
  repeat case_match; simplify_eq; (split; [done|]);
    first [by eexists | by exists ""; rewrite string_app_empty_r].
Qed.

Lemma for_each_build_inv h l done text done' text' :
  for_each (build_neighbor h) l (done, text) = Ok (done', text') ->
  done' = done ++ (default_route_map_out <$> l)
  /\ exists added, text' = text +:+ added.
Proof.
  revert done text. induction l as [|n l IH]; intros done text Hl.
  - injection Hl as <- <-. rewrite app_nil_r. split; [done|].
    exists "". by rewrite string_app_empty_r.
  - cbn [for_each] in Hl.
    destruct (build_neighbor h (done, text) n) as [[d1 t1]|] eqn:Hn; [|done].
    cbn [bind] in Hl.
    apply build_neighbor_inv in Hn as [-> [a1 ->]].
    apply IH in Hl as [-> [a2 ->]]. split.
    + by rewrite <- app_assoc.
    + exists (a1 +:+ a2). by rewrite string_app_assoc.
Qed.

Lemma for_each_build_ok h l done text validated c acl rows :
  Forall (fun n : gmap string string => is_Some (n !! "peer_ip")) l ->
  validated_peers h = Some validated ->
  community h = Some c ->
  as_path_acl h = Some acl ->
  route_maps h = Some rows ->
  exists text',
    for_each (build_neighbor h) l (done, text)
    = Ok (done ++ (default_route_map_out <$> l), text').
Proof.
  intros Hall Hv Hc Hacl Hrows. revert done text.
  induction Hall as [|n l [p Hp] _ IH]; intros done text.
  { exists text. by rewrite app_nil_r. }
  cbn [for_each].
  assert (exists t1, build_neighbor h (done, text) n
                     = Ok (done ++ [default_route_map_out n], t1)) as [t1 ->].
  { destruct (decide (p ∈ validated)) as [Hin|Hnot].
    - destruct (n !! "route_map_out") as [rm|] eqn:Hrm.
      + destruct (decide (rm = "NONE")) as [->|Hne].
        * eexists. eapply build_neighbor_create; eauto.
        * eexists. rewrite default_route_map_out_present by (by rewrite Hrm).
          eapply build_neighbor_existing; eauto.
      + eexists. eapply build_neighbor_create; eauto.
    - eexists. eapply build_neighbor_skip; eauto. }
  cbn [bind]. destruct (IH (done ++ [default_route_map_out n]) t1) as [t2 ->].
  exists t2. by rewrite <- app_assoc.
Qed.

(** With every key in place the task completes. *)
Lemma build_route_map_completes h cfg l validated c acl rows :
  bgp_config h = Some cfg ->
  cfg !! "neighbors" = Some (GList l) ->
  Forall (fun n : gmap string string => is_Some (n !! "peer_ip")) l ->
  validated_peers h = Some validated ->
  community h = Some c ->
  as_path_acl h = Some acl ->
  route_maps h = Some rows ->
  exists h', build_route_map h = Ok h'.
Proof.
  intros Hcfg Hl Hall Hv Hc Hacl Hrows. unfold build_route_map.
  rewrite Hcfg. cbn [getitem bind]. rewrite Hl. cbn [getitem bind].
  destruct (for_each_build_ok h l [] "" validated c acl rows) as [t ->];
    try done.
  cbn [bind]. by eexists.
Qed.

(** C10. When [build_route_map] completes, the host's [bgp_config] holds
    as many neighbor records as before, in the same places, and each of
    them, whether or not its peer was validated, has the key
    [route_map_out]: the value it had, or ['NONE'] when it had none.  No
    other key of a record and no other group of the configuration has
    changed. *)
Theorem build_route_map_fills_route_map_out h h' cfg l :
  bgp_config h = Some cfg ->
  cfg !! "neighbors" = Some (GList l) ->
  build_route_map h = Ok h' ->
  exists cfg' l',
    bgp_config h' = Some cfg'
    /\ cfg' !! "neighbors" = Some (GList l')
    /\ (forall key, key <> "neighbors" -> cfg' !! key = cfg !! key)
    /\ length l' = length l
    /\ forall (i : nat) neighbor,
         l !! i = Some neighbor ->
         exists neighbor',
           l' !! i = Some neighbor'
           /\ is_Some (neighbor' !! "route_map_out")
           /\ (neighbor !! "route_map_out" = None ->
               neighbor' !! "route_map_out" = Some "NONE")
           /\ (forall v, neighbor !! "route_map_out" = Some v ->
                         neighbor' !! "route_map_out" = Some v)
           /\ (forall key, key <> "route_map_out" ->
                           neighbor' !! key = neighbor !! key).
Proof.
  intros Hcfg Hl. unfold build_route_map.
  rewrite Hcfg. cbn [getitem bind]. rewrite Hl. cbn [getitem bind].
  destruct (for_each (build_neighbor h) l ([], "")) as [[l' t]|] eqn:Hrun;
    [|done].
  cbn [bind]. intros [= <-].
  apply for_each_build_inv in Hrun as [-> _]. rewrite app_nil_l.
  exists (<["neighbors" := GList (default_route_map_out <$> l)]> cfg),
         (default_route_map_out <$> l).
  split; [done|]. split; [apply lookup_insert_eq|].
  split; [by intros key Hk; rewrite lookup_insert_ne|].
  split; [apply length_fmap|].
  intros i neighbor Hi. exists (default_route_map_out neighbor).
  split; [by rewrite list_lookup_fmap, Hi|].
  split; [apply default_route_map_out_is_Some|].
  split; [apply default_route_map_out_absent|].
  split; [|apply default_route_map_out_other].
  intros v Hv. by rewrite default_route_map_out_present by (by rewrite Hv).
Qed.

Lemma build_route_map_fills_route_map_out_witness :
  let l := [neighbor_11; neighbor_22_att] in
  let cfg : gmap string group := {["neighbors" := GList l]} in
  exists h',
    build_route_map
      (staged_host l (att_out_rows "20") (as_path_one "^$") ["22.22.22.22"]
         "100:200") = Ok h'
    /\ exists cfg' l',
        bgp_config h' = Some cfg'
        /\ cfg' !! "neighbors" = Some (GList l')
        /\ (forall key, key <> "neighbors" -> cfg' !! key = cfg !! key)
        /\ length l' = length l
        /\ forall (i : nat) neighbor,
             l !! i = Some neighbor ->
             exists neighbor',
               l' !! i = Some neighbor'
               /\ is_Some (neighbor' !! "route_map_out")
               /\ (neighbor !! "route_map_out" = None ->
                   neighbor' !! "route_map_out" = Some "NONE")
               /\ (forall v, neighbor !! "route_map_out" = Some v ->
                             neighbor' !! "route_map_out" = Some v)
               /\ (forall key, key <> "route_map_out" ->
                               neighbor' !! key = neighbor !! key).
Proof.
  intros l cfg. eexists. split; [reflexivity|].
  apply (build_route_map_fills_route_map_out
           (staged_host l (att_out_rows "20") (as_path_one "^$")
              ["22.22.22.22"] "100:200") _ cfg l); reflexivity.
Defined.

(** The create-new branch.  For a peer whose address, as the device
    wrote it, is found among the validated peers and whose record has no
    [route_map_out] (or the value ['NONE'] that stands for it), the round
    of the synthesis loop
    takes the create-new branch and adds to the configuration text, in this
    order: the AS-path access list 1 permitting [^$]; the entry
    [permit 10] of [NEW_ROUTE_MAP] with [match as-path 1] and
    [set community] followed by the host's community; the entry [deny 20]
    without clauses; and, under [router bgp 65000], the line that applies
    [NEW_ROUTE_MAP] outbound to the peer.  The text that a completed run
    stores contains this block.  The community and the peer address are
    taken to be free of line breaks. *)
Theorem create_new_block_emitted h done text neighbor peer_ip validated c :
  neighbor !! "peer_ip" = Some peer_ip ->
  validated_peers h = Some validated ->
  peer_ip ∈ validated ->
  neighbor !! "route_map_out" = None
  \/ neighbor !! "route_map_out" = Some "NONE" ->
  community h = Some c ->
  Str.lacks Str.newline c = true ->
  Str.lacks Str.newline peer_ip = true ->
  build_neighbor h (done, text) neighbor
  = Ok (done ++ [default_route_map_out neighbor],
        text +:+ Str.unlines (new_route_map_lines c peer_ip))
  /\ forall cfg l1 l2 h',
       bgp_config h = Some cfg ->
       cfg !! "neighbors" = Some (GList (l1 ++ neighbor :: l2)) ->
       build_route_map h = Ok h' ->
       exists before after,
         new_config h'
         = Some (before +:+ Str.unlines (new_route_map_lines c peer_ip)
                   +:+ after).
Proof.
  intros Hp Hv Hin Hrm Hc Hcl Hpl.
  assert (forall done text,
    build_neighbor h (done, text) neighbor
    = Ok (done ++ [default_route_map_out neighbor],
          text +:+ Str.unlines (new_route_map_lines c peer_ip))) as Hround.
  { intros d t. rewrite <- dedent_template by done.
    by eapply build_neighbor_create. }
  split; [apply Hround|].
  intros cfg l1 l2 h' Hcfg Hl. unfold build_route_map.
  rewrite Hcfg. cbn [getitem bind]. rewrite Hl. cbn [getitem bind].
  rewrite for_each_app.
  destruct (for_each (build_neighbor h) l1 ([], "")) as [[d1 t1]|] eqn:H1;
    [|done].
  cbn [bind for_each]. rewrite Hround. cbn [bind].
  destruct (for_each (build_neighbor h) l2 _) as [[d2 t2]|] eqn:H2; [|done].
  cbn [bind]. intros [= <-].
  apply for_each_build_inv in H2 as [_ [after ->]].
  exists t1, after. cbn [new_config set_new_config].
  by rewrite string_app_assoc.
Qed.

Lemma create_new_block_emitted_witness :
  let h := staged_host [neighbor_22] [] (JList []) ["22.22.22.22"] "100:200" in
  build_neighbor h ([], "") neighbor_22
  = Ok ([] ++ [default_route_map_out neighbor_22],
        "" +:+ Str.unlines (new_route_map_lines "100:200" "22.22.22.22"))
  /\ forall cfg l1 l2 h',
       bgp_config h = Some cfg ->
       cfg !! "neighbors" = Some (GList (l1 ++ neighbor_22 :: l2)) ->
       build_route_map h = Ok h' ->
       exists before after,
         new_config h'
         = Some (before
                   +:+ Str.unlines (new_route_map_lines "100:200" "22.22.22.22")
                   +:+ after).
Proof.
  intros h.
  apply (create_new_block_emitted h [] "" neighbor_22 "22.22.22.22"
           ["22.22.22.22"] "100:200");
    first [reflexivity | by left
          | apply bool_decide_unpack; vm_compute; exact I].
Defined.




(** C5, as the program has it.  The create-new branch always writes the
    route-map name [NEW_ROUTE_MAP] and the access-list number 1: the
    round's result is the same whatever route-map table and AS-path access
    lists the host holds, and no exception is raised when the table
    already has that name or that number. *)
Theorem create_new_names_are_fixed
    h rows acl done text neighbor peer_ip validated c :
  neighbor !! "peer_ip" = Some peer_ip ->
  validated_peers h = Some validated ->
  peer_ip ∈ validated ->
  neighbor !! "route_map_out" = None
  \/ neighbor !! "route_map_out" = Some "NONE" ->
  community h = Some c ->
  Str.lacks Str.newline c = true ->
  Str.lacks Str.newline peer_ip = true ->
  build_neighbor (set_route_maps rows (set_as_path_acl acl h)) (done, text)
    neighbor
  = Ok (done ++ [default_route_map_out neighbor],
        text +:+ Str.unlines (new_route_map_lines c peer_ip)).
Proof.
  intros Hp Hv Hin Hrm Hc Hcl Hpl.
  rewrite <- dedent_template by done. by eapply build_neighbor_create.
Qed.

Lemma create_new_names_are_fixed_witness :
  build_neighbor
    (set_route_maps taken_rows
       (set_as_path_acl (as_path_one "_65000$")
          (staged_host [neighbor_22] [] (JList []) ["22.22.22.22"] "100:200")))
    ([], "") neighbor_22
  = Ok ([] ++ [default_route_map_out neighbor_22],
        "" +:+ Str.unlines (new_route_map_lines "100:200" "22.22.22.22")).
Proof.
  apply (create_new_names_are_fixed
           (staged_host [neighbor_22] [] (JList []) ["22.22.22.22"] "100:200")
           taken_rows (as_path_one "_65000$") [] "" neighbor_22 "22.22.22.22"
           ["22.22.22.22"] "100:200");
    first [reflexivity | by left
          | apply bool_decide_unpack; vm_compute; exact I].
Defined.

(** The claim C5 fails: on a device that already has a route-map
    [NEW_ROUTE_MAP] and an AS-path access list 1, the run completes and
    the text it stores defines both again. *)
Lemma name_collision_not_detected :
  exists h',
    @main_host loopback_ipv6 [{["neighbors" := GDict neighbor_22]}]
      taken_rows (as_path_one "_65000$") (inventory_host "100:200")
    = Ok h'
    /\ route_maps h' = Some taken_rows
    /\ as_path_acl h' = Some (as_path_one "_65000$")
    /\ new_config h'
       = Some (Str.unlines (new_route_map_lines "100:200" "22.22.22.22")).
Proof.
  eexists. split; [reflexivity|]. repeat split.
Qed.




(** ** The whole run on the sample devices *)

(** The claim C4 fails: 11.11.11.11 lies in 11.0.0.0/8, so the peer is
    not validated and the run stores an empty configuration text. *)
Lemma peer_11_gets_no_route_map :
  exists h',
    @main_host loopback_ipv6 [{["neighbors" := GDict neighbor_11]}] []
      (JList []) (inventory_host "100:200")
    = Ok h'
    /\ validated_peers h' = Some []
    /\ new_config h' = Some "".
Proof. eexists. split; [reflexivity|]. split; reflexivity. Qed.

(** C4, as the program has it.  A device that reports the neighbor
    11.11.11.11 without an outbound route-map, with the community
    100:200: the peer lies in 11.0.0.0/8, it is not validated and no
    configuration is written for it.  A device that reports the neighbor
    22.22.22.22, which lies in neither exclusion range, without an
    outbound route-map and with the same community: the peer is
    validated, its record gets [route_map_out = 'NONE'], and the run stores
    the create-new block, which is the access list [1 permit ^$], the
    entries [permit 10] (with [match as-path 1] and
    [set community 100:200]) and [deny 20] of [NEW_ROUTE_MAP], and the
    neighbor line applying [NEW_ROUTE_MAP] outbound under
    [router bgp 65000]. *)
Theorem end_to_end_create_new `{Ipv6Lib} :
  (exists h',
     main_host [{["neighbors" := GDict neighbor_11]}] [] (JList [])
       (inventory_host "100:200")
     = Ok h'
     /\ validated_peers h' = Some []
     /\ new_config h' = Some "")
  /\ (exists h',
        main_host [{["neighbors" := GDict neighbor_22]}] [] (JList [])
          (inventory_host "100:200")
        = Ok h'
        /\ validated_peers h' = Some ["22.22.22.22"]
        /\ bgp_config h'
           = Some {["neighbors" :=
                      GList [<["route_map_out" := "NONE"]> neighbor_22]]}
        /\ new_config h'
           = Some (Str.unlines
                     [""; "ip as-path access-list 1 permit ^$";
                      "route-map NEW_ROUTE_MAP permit 10";
                      " match as-path 1";
                      " set community 100:200";
                      "route-map NEW_ROUTE_MAP deny 20                    ";
                      "router bgp 65000";
                      " neighbor 22.22.22.22 route-map NEW_ROUTE_MAP out";
                      ""])).
Proof.
  split; eexists; (split; [reflexivity|]); repeat split.
Qed.

Lemma excluded_iff_in_exclusion_range_witness :
  let a := Ipaddress.IPv4Address 185273099 in
  exists exclude,
    exclude_peer a networks = Ok exclude
    /\ (exclude = true <-> in_10_254_254_0_24 a \/ in_11_0_0_0_8 a)
    /\ (forall validated neighbor,
          neighbor !! "peer_ip" = Some "11.11.11.11" ->
          @validate_neighbor loopback_ipv6 validated neighbor
          = Ok (if exclude then validated
                else validated ++ [@Ipaddress.str loopback_ipv6 a]))
    /\ (forall network net rest,
          Ipaddress.ip_network network = Ok net ->
          Ipaddress.contains net a = true ->
          exclude_peer a (network :: rest) = Ok true).
Proof.
  intros a.
  apply (@excluded_iff_in_exclusion_range loopback_ipv6 "11.11.11.11" a).
  reflexivity.
Defined.

Lemma malformed_peer_ip_raises_witness :
  let l := [neighbor_22; neighbor_bad] in
  (forall validated,
     @validate_neighbor loopback_ipv6 validated neighbor_bad
     = Raise ValueError)
  /\ @validate_peer loopback_ipv6
       (staged_host l [] (JList []) [] "100:200")
     = Raise ValueError.
Proof.
  intros l.
  apply (@malformed_peer_ip_raises loopback_ipv6
           (staged_host l [] (JList []) [] "100:200")
           {["neighbors" := GList l]} l neighbor_bad "22.22.22");
    first [reflexivity
          | apply bool_decide_unpack; vm_compute; exact I
          | by repeat constructor].
Defined.

(** ** Checks on small inputs *)

Example dedent_ex :
  Textwrap.dedent (Str.unlines [""; "    a"; "     b"; "  "; "    c"; "    "])
  = Str.unlines [""; "a"; " b"; ""; "c"; ""].
Proof. vm_compute. reflexivity. Qed.

Example dedent_mixed_margin_ex :
  Textwrap.dedent (Str.unlines ["  a"; "b"; "   "]) = Str.unlines ["  a"; "b"; ""].
Proof. vm_compute. reflexivity. Qed.

Example ipv4_parse_ex :
  Ipaddress.ipv4_address "11.11.11.11" = Some 185273099
  /\ Ipaddress.ipv4_address "10.254.254.5" = Some 184483333
  /\ Ipaddress.ipv4_address "10.01.2.3" = None
  /\ Ipaddress.ipv4_address "1.2.3" = None
  /\ Ipaddress.ipv4_address "256.1.1.1" = None
  /\ Ipaddress.ip_network "11.0.0.1/8" = Raise ValueError.
Proof. vm_compute. repeat split; reflexivity. Qed.

Example str_ex :
  @Ipaddress.str loopback_ipv6 (Ipaddress.IPv4Address 184483333)
  = "10.254.254.5".
Proof. vm_compute. reflexivity. Qed.

Example excluded_peer_ex :
  exists h',
    @main_host loopback_ipv6
      [{["neighbors" := GList [{["peer_ip" := "10.254.254.5"]}; neighbor_22;
                               {["peer_ip" := "::1"]}]]}]
      [] (JList []) (inventory_host "100:200")
    = Ok h'
    /\ validated_peers h' = Some ["22.22.22.22"; "::1"].
Proof. eexists. split; reflexivity. Qed.

Example empty_as_path_ex h :
  get_as_path (JList []) h = Ok (set_as_path_acl (JList []) h).
Proof. reflexivity. Qed.

Example ragged_as_path_ex h :
  get_as_path (JList [JList []; JList []]) h = Raise IndexError.
Proof. reflexivity. Qed.

(** * Further properties of the tasks *)

(** ** [get_bgp_config] *)

Lemma dict_to_list_idem v : dict_to_list (dict_to_list v) = dict_to_list v.
Proof. by destruct v. Qed.

(** X1. After [get_bgp_config] every group of the stored configuration
    is a list; a group that the parse held as a bare record is stored as
    the one-item list of that record, and a group that the parse held as
    a list is stored as it was;
    apart from [neighbors] no key is added and none is dropped; and the
    other keys of the host are as before. *)
Theorem get_bgp_config_groups_are_lists cfg rest h :
  exists h' cfg',
    get_bgp_config (cfg :: rest) h = Ok h'
    /\ bgp_config h' = Some cfg'
    /\ (forall key v, cfg' !! key = Some v -> exists l, v = GList l)
    /\ (forall key d,
          cfg !! key = Some (GDict d) -> cfg' !! key = Some (GList [d]))
    /\ (forall key l,
          cfg !! key = Some (GList l) -> cfg' !! key = Some (GList l))
    /\ (forall key, key <> "neighbors" ->
          (is_Some (cfg' !! key) <-> is_Some (cfg !! key)))
    /\ route_maps h' = route_maps h
    /\ as_path_acl h' = as_path_acl h
    /\ validated_peers h' = validated_peers h
    /\ community h' = community h
    /\ new_config h' = new_config h.
Proof.
  rewrite get_bgp_config_ok.
  set (c1 := if decide (is_Some ((dict_to_list <$> cfg) !! "neighbors"))
             then dict_to_list <$> cfg
             else <["neighbors" := GList []]> (dict_to_list <$> cfg)).
  assert (forall key,
    c1 !! key
    = match cfg !! key with
      | Some v => Some (dict_to_list v)
      | None => if decide (key = "neighbors") then Some (GList []) else None
      end) as Hlookup.
  { intros key.
    destruct (get_bgp_config_lookup cfg rest h key) as (h1 & c2 & Hr & Hc & Hl).
    rewrite get_bgp_config_ok in Hr. injection Hr as <-.
    injection Hc as <-. exact Hl. }
  clearbody c1. exists (set_bgp_config c1 h), c1.
  split; [done|]. split; [done|].
  split; [|split; [|split; [|split; [|done]]]].
  - intros key v. rewrite Hlookup.
    destruct (cfg !! key) as [[d|l]|]; [| |case_decide]; intros ?;
      simplify_eq; eexists; reflexivity.
  - intros key d Hk. by rewrite Hlookup, Hk.
  - intros key l Hk. by rewrite Hlookup, Hk.
  - intros key Hkey. rewrite Hlookup. split.
    + destruct (cfg !! key); [by eexists|].
      rewrite decide_False by done. by intros [? ?].
    + intros [v ->]. by eexists.
Qed.

(** X2. Cleaning an already cleaned configuration changes nothing: when
    [get_bgp_config] has stored a configuration, running it again on that
    configuration returns the same host. *)
Theorem get_bgp_config_idempotent cfg rest rest' h h' cfg' :
  get_bgp_config (cfg :: rest) h = Ok h' ->
  bgp_config h' = Some cfg' ->
  get_bgp_config (cfg' :: rest') h' = Ok h'.
Proof.
  rewrite get_bgp_config_ok. intros [= <-] [= <-].
  rewrite get_bgp_config_ok. f_equal.
  set (c1 := if decide (is_Some ((dict_to_list <$> cfg) !! "neighbors"))
             then dict_to_list <$> cfg
             else <["neighbors" := GList []]> (dict_to_list <$> cfg)).
  assert (dict_to_list <$> c1 = c1) as ->.
  { apply map_eq. intros key. rewrite lookup_fmap. unfold c1.
    case_decide.
    - rewrite lookup_fmap. destruct (cfg !! key); simpl; [|done].
      by rewrite dict_to_list_idem.
    - rewrite lookup_insert. case_decide; [done|].
      rewrite lookup_fmap. destruct (cfg !! key); simpl; [|done].
      by rewrite dict_to_list_idem. }
  assert (is_Some (c1 !! "neighbors")) as Hn.
  { unfold c1. case_decide; [done|]. rewrite lookup_insert_eq. by eexists. }
  rewrite decide_True by done. by destruct h.
Qed.

Lemma get_bgp_config_idempotent_witness :
  let cfg : gmap string group :=
    {["networks" := GDict {["network" := "10.10.192.0"]}]} in
  let cfg' : gmap string group :=
    {["networks" := GList [{["network" := "10.10.192.0"]}];
      "neighbors" := GList []]} in
  get_bgp_config [cfg'] (set_bgp_config cfg' empty_host)
  = Ok (set_bgp_config cfg' empty_host).
Proof.
  intros cfg cfg'.
  apply (get_bgp_config_idempotent cfg [] [] empty_host
           (set_bgp_config cfg' empty_host) cfg'); reflexivity.
Defined.

(** ** [get_as_path] *)

Lemma json_ind' (P : json -> Prop) :
  (forall d, P (JDict d)) ->
  (forall l, Forall P l -> P (JList l)) ->
  forall j, P j.
Proof.
  intros Hd Hl. fix IH 1. intros [d|l]; [apply Hd|]. apply Hl.
  induction l as [|x l IHl]; constructor; [apply IH|apply IHl].
Qed.

(** With a list in front, the loop goes on with the last item. *)
Lemma unwrap_lists_last a xs j :
  last (JList a :: xs) = Some j ->
  unwrap_lists (JList (JList a :: xs)) = unwrap_lists j.
Proof.
  change (unwrap_lists (JList (JList a :: xs)))
    with (unwrap_last (JList a :: xs)).
  generalize (JList a) as x. revert j.
  induction xs as [|y ys IH]; intros j x Hl.
  - by injection Hl as <-.
  - rewrite last_cons_cons in Hl. by rewrite <- (IH j y Hl).
Qed.

Lemma unwrap_lists_records d rest :
  unwrap_lists (JList (JDict d :: rest)) = Ok (JList (JDict d :: rest)).
Proof. reflexivity. Qed.

Lemma unwrap_lists_enclose_records k d rest :
  unwrap_lists (enclose k (JList (JDict d :: rest)))
  = Ok (JList (JDict d :: rest)).
Proof. induction k as [|k IH]; [done|]. destruct k; exact IH. Qed.

Lemma get_as_path_flattens_aux k d rest h :
  get_as_path (enclose k (JList (JDict d :: rest))) h
  = Ok (set_as_path_acl (JList (JDict d :: rest)) h).
Proof.
  unfold get_as_path.
  assert (json_len (enclose k (JList (JDict d :: rest))) <> 0%nat) as Hlen
    by (by destruct k).
  apply Nat.eqb_neq in Hlen. rewrite Hlen.
  by rewrite unwrap_lists_enclose_records.
Qed.

(** X3. Several matches come out as the flat list of their records, in
    the order of the parse: a list of records that starts with a record,
    inside any number of enclosing one-item lists, is stored without the
    enclosing lists and without any other change. *)
Theorem get_as_path_flattens k d rest h :
  get_as_path (enclose k (JList (JDict d :: rest))) h
  = Ok (set_as_path_acl (JList (JDict d :: rest)) h).
Proof.
  unfold get_as_path.
  assert (json_len (enclose k (JList (JDict d :: rest))) <> 0%nat) as Hlen
    by (by destruct k).
  apply Nat.eqb_neq in Hlen. rewrite Hlen.
  by rewrite unwrap_lists_enclose_records.
Qed.

(** X4. [pop] takes the last item: when the parse is a list that starts
    with a list, only its last item is looked at, and what the items
    before it hold is dropped without notice. *)
Theorem get_as_path_keeps_last_item_only a xs j h :
  last (JList a :: xs) = Some j ->
  get_as_path (JList (JList a :: xs)) h
  = let* as_path := unwrap_lists j in Ok (set_as_path_acl as_path h).
Proof.
  intros Hl. unfold get_as_path. cbn [json_len length Nat.eqb].
  by rewrite (unwrap_lists_last a xs j Hl).
Qed.

Lemma get_as_path_keeps_last_item_only_witness :
  let d1 : gmap string string := {["as_path_acl" := "1"]} in
  let d2 : gmap string string := {["as_path_acl" := "2"]} in
  get_as_path (JList [JList [JDict d1]; JList [JDict d2]]) empty_host
  = let* as_path := unwrap_lists (JList [JDict d2]) in
    Ok (set_as_path_acl as_path empty_host).
Proof.
  intros d1 d2.
  apply (get_as_path_keeps_last_item_only [JDict d1] [JList [JDict d2]]
           (JList [JDict d2]) empty_host).
  reflexivity.
Defined.

Lemma unwrap_lists_shape j j' :
  unwrap_lists j = Ok j' -> exists d rest, j' = JList (JDict d :: rest).
Proof.
  revert j'. induction j as [d|l IH] using json_ind'; intros j' Hj; [done|].
  destruct l as [|[d|a] xs]; [done| |].
  - injection Hj as <-. by eexists _, _.
  - destruct (last (JList a :: xs)) as [j|] eqn:Hlast;
      [|by apply last_None in Hlast].
    rewrite (unwrap_lists_last a xs j Hlast) in Hj.
    apply last_Some_elem_of in Hlast.
    rewrite Forall_forall in IH. by apply (IH j).
Qed.

(** X5. When [get_as_path] completes, the stored value is the parse
    itself if that was empty, and otherwise a list whose first item is a
    record, never a list of lists; and running the task again on the
    stored value returns the same host. *)
Theorem get_as_path_result_shape parsed h h' :
  get_as_path parsed h = Ok h' ->
  exists as_path,
    as_path_acl h' = Some as_path
    /\ (json_len parsed = 0%nat /\ as_path = parsed
        \/ exists d rest, as_path = JList (JDict d :: rest))
    /\ get_as_path as_path h' = Ok h'.
Proof.
  unfold get_as_path at 1.
  destruct (json_len parsed =? 0)%nat eqn:Hlen.
  - cbn [bind]. intros [= <-]. exists parsed. split; [done|].
    split; [left; split; [by apply Nat.eqb_eq|done]|].
    unfold get_as_path. by rewrite Hlen.
  - destruct (unwrap_lists parsed) as [v|] eqn:Hv; [|done].
    cbn [bind]. intros [= <-]. exists v. split; [done|].
    destruct (unwrap_lists_shape _ _ Hv) as (d & rest & ->).
    split; [right; by eexists _, _|]. reflexivity.
Qed.

Lemma get_as_path_result_shape_witness :
  let d : gmap string string := {["as_path_acl" := "1"]} in
  let h' := set_as_path_acl (JList [JDict d]) empty_host in
  exists as_path,
    as_path_acl h' = Some as_path
    /\ (json_len (JList [JList [JDict d]]) = 0%nat
        /\ as_path = JList [JList [JDict d]]
        \/ exists d rest, as_path = JList (JDict d :: rest))
    /\ get_as_path as_path h' = Ok h'.
Proof.
  intros d h'.
  apply (get_as_path_result_shape (JList [JList [JDict d]]) empty_host h').
  reflexivity.
Defined.

(** ** [validate_peer] *)

Section ValidateMore.
Context `{Ipv6Lib}.

Lemma validate_neighbor_excluded validated neighbor a :
  parses_to neighbor a ->
  validate_neighbor validated neighbor
  = Ok (if excluded a then validated else validated ++ [Ipaddress.str a]).
Proof.
  intros (s & Hn & Hs).
  destruct (validate_neighbor_ok validated neighbor s a Hn Hs) as (b & Hb & ->).
  rewrite exclude_peer_networks in Hb. by injection Hb as <-.
Qed.

Lemma for_each_validate l addrs validated :
  Forall2 parses_to l addrs ->
  for_each validate_neighbor l validated
  = Ok (validated
          ++ (Ipaddress.str <$> filter (fun a => excluded a = false) addrs)).
Proof.
  intros Hl. revert validated.
  induction Hl as [|n a l addrs Hn _ IH]; intros validated.
  { by rewrite app_nil_r. }
  cbn [for_each]. rewrite (validate_neighbor_excluded _ _ a Hn). cbn [bind].
  rewrite IH, filter_cons. destruct (excluded a) eqn:Ha.
  - by rewrite decide_False.
  - rewrite decide_True by done. by rewrite fmap_cons, <- app_assoc.
Qed.

(** X6. When every neighbor has a peer address that
    [ipaddress.ip_address] accepts, [validate_peer] completes and stores
    the printed addresses of exactly the peers outside the two exclusion
    ranges, in the order of the neighbors and with repetitions kept; it
    changes no other key of the host. *)
Theorem validate_peer_keeps_order h cfg l addrs :
  bgp_config h = Some cfg ->
  cfg !! "neighbors" = Some (GList l) ->
  Forall2 parses_to l addrs ->
  validate_peer h
  = Ok (set_validated_peers
          (Ipaddress.str <$> filter (fun a => excluded a = false) addrs) h).
Proof.
  intros Hcfg Hl Hall. unfold validate_peer. rewrite Hcfg.
  cbn [getitem bind]. rewrite Hl. cbn [getitem bind].
  by rewrite (for_each_validate l addrs []).
Qed.

(** X7. A neighbor record without the key [peer_ip], after neighbors that
    all parse, makes [validate_peer] raise [KeyError] for that key, whatever
    comes after it. *)
Theorem validate_peer_missing_peer_ip h cfg good addrs bad rest :
  bgp_config h = Some cfg ->
  cfg !! "neighbors" = Some (GList (good ++ bad :: rest)) ->
  Forall2 parses_to good addrs ->
  bad !! "peer_ip" = None ->
  validate_peer h = Raise (KeyError "peer_ip").
Proof.
  intros Hcfg Hl Hgood Hbad. unfold validate_peer. rewrite Hcfg.
  cbn [getitem bind]. rewrite Hl. cbn [getitem bind].
  rewrite for_each_app, (for_each_validate good addrs []) by done.
  cbn [bind for_each]. unfold validate_neighbor. by rewrite Hbad.
Qed.

(** X8. [validate_peer] starts from an empty list each time: what it
    stores does not depend on an earlier list of validated peers, and
    running it again on its own result returns the same host. *)
Theorem validate_peer_idempotent h h' earlier :
  validate_peer h = Ok h' ->
  validate_peer (set_validated_peers earlier h) = Ok h'
  /\ validate_peer h' = Ok h'.
Proof.
  unfold validate_peer. destruct h as [cfg rms acl vp c nc].
  cbn [bgp_config set_validated_peers route_maps as_path_acl community
       new_config validated_peers].
  destruct cfg as [cfg|]; [|done]. cbn [getitem bind].
  destruct (cfg !! "neighbors") as [nbs|] eqn:Hn; [|done].
  cbn [getitem bind].
  destruct (match nbs with
            | GDict d => _
            | GList l => _
            end) as [v|] eqn:Hv; [|done].
  cbn [bind]. intros [= <-].
  cbn [bgp_config set_validated_peers route_maps as_path_acl community
       new_config validated_peers getitem bind].
  rewrite Hn. cbn [getitem bind]. by rewrite Hv.
Qed.

End ValidateMore.

Lemma validate_peer_keeps_order_witness :
  let l : list (gmap string string) :=
    [{["peer_ip" := "10.254.254.5"]}; neighbor_22; neighbor_11; neighbor_22] in
  let addrs :=
    [Ipaddress.IPv4Address 184483333; Ipaddress.IPv4Address 370546198;
     Ipaddress.IPv4Address 185273099; Ipaddress.IPv4Address 370546198] in
  let h := staged_host l [] (JList []) [] "100:200" in
  @validate_peer loopback_ipv6 h
  = Ok (set_validated_peers ["22.22.22.22"; "22.22.22.22"] h).
Proof.
  intros l addrs h.
  apply (@validate_peer_keeps_order loopback_ipv6 h
           {["neighbors" := GList l]} l addrs); [reflexivity|reflexivity|].
  repeat constructor; eexists; (split; [reflexivity|reflexivity]).
Defined.

Lemma validate_peer_missing_peer_ip_witness :
  @validate_peer loopback_ipv6
    (staged_host [neighbor_22; {["remote_as" := "65001"]}; neighbor_bad] []
       (JList []) [] "100:200")
  = Raise (KeyError "peer_ip").
Proof.
  apply (@validate_peer_missing_peer_ip loopback_ipv6 _
           {["neighbors" := GList [neighbor_22; {["remote_as" := "65001"]};
                                    neighbor_bad]]}
           [neighbor_22] [Ipaddress.IPv4Address 370546198]
           {["remote_as" := "65001"]} [neighbor_bad]);
    [reflexivity|reflexivity| |reflexivity].
  repeat constructor; eexists; (split; [reflexivity|reflexivity]).
Defined.

Lemma validate_peer_idempotent_witness :
  let h := staged_host [neighbor_22] [] (JList []) ["1.2.3.4"] "100:200" in
  let h' := set_validated_peers ["22.22.22.22"] h in
  @validate_peer loopback_ipv6 (set_validated_peers ["9.9.9.9"] h) = Ok h'
  /\ @validate_peer loopback_ipv6 h' = Ok h'.
Proof.
  intros h h'.
  apply (@validate_peer_idempotent loopback_ipv6 h h' ["9.9.9.9"]).
  reflexivity.
Defined.

(** ** Printing an address that was parsed *)

Lemma join_split sep s :
  Str.join (String sep "") (Str.split sep s) = s.
Proof.
  induction s as [|c s IH]; [done|]. cbn [Str.split].
  pose proof (split_not_nil sep s) as Hne.
  destruct (decide (c = sep)) as [->|Hc].
  - destruct (Str.split sep s) as [|l ls] eqn:Hs; [done|].
    change (Str.join (String sep "") ("" :: l :: ls))
      with (String sep (Str.join (String sep "") (l :: ls))).
    by rewrite IH.
  - destruct (Str.split sep s) as [|l [|l2 ls]] eqn:Hs; [done| |].
    + cbn [Str.join] in *. by rewrite IH.
    + change (Str.join (String sep "") (String c l :: l2 :: ls))
        with (String c (Str.join (String sep "") (l :: l2 :: ls))).
      by rewrite IH.
Qed.

Section Ipv4RoundTrip.
Import Ipaddress.

Lemma pretty_N_char_digit c :
  is_digit c = true ->
  pretty_N_char (Z.to_N (Z.of_N (N_of_ascii c) - 48)) = c.
Proof.
  destruct c as [[] [] [] [] [] [] [] []]; intros Hc; vm_compute in Hc;
    try discriminate; reflexivity.
Qed.

Lemma is_digit_value c :
  is_digit c = true -> 0 <= Z.of_N (N_of_ascii c) - 48 <= 9.
Proof. unfold is_digit. intros [? ?]%andb_true_iff. lia. Qed.

Lemma int_of_digits_pos o acc :
  0 < acc -> Str.all is_digit o = true -> 0 < int_of_digits acc o.
Proof.
  revert acc. induction o as [|c o IH]; intros acc Hacc Ho; [done|].
  apply andb_true_iff in Ho as [Hc Ho]. apply is_digit_value in Hc.
  cbn [int_of_digits]. apply IH; [lia|done].
Qed.

Lemma pretty_N_go_digits o acc s :
  0 < acc -> Str.all is_digit o = true ->
  pretty_N_go (Z.to_N (int_of_digits acc o)) s
  = pretty_N_go (Z.to_N acc) (o +:+ s).
Proof.
  revert acc s. induction o as [|c o IH]; intros acc s Hacc Ho; [done|].
  apply andb_true_iff in Ho as [Hc Ho].
  pose proof (is_digit_value c Hc) as Hd.
  cbn [int_of_digits]. rewrite IH by (done || lia).
  rewrite pretty_N_go_step by lia.
  set (d := Z.of_N (N_of_ascii c) - 48) in *.
  assert (Z.to_N (10 * acc + d) = 10 * Z.to_N acc + Z.to_N d)%N as -> by lia.
  assert ((10 * Z.to_N acc + Z.to_N d) `div` 10 = Z.to_N acc)%N as ->.
  { symmetry. apply (N.div_unique _ _ _ (Z.to_N d)); lia. }
  assert ((10 * Z.to_N acc + Z.to_N d) `mod` 10 = Z.to_N d)%N as ->.
  { symmetry. apply (N.mod_unique _ _ (Z.to_N acc)); lia. }
  unfold d. by rewrite pretty_N_char_digit.
Qed.

Lemma parse_octet_digits o v : parse_octet o = Some v -> Str.all is_digit o = true.
Proof.
  unfold parse_octet. destruct o as [|c0 o]; [done|].
  by destruct (Str.all is_digit (String c0 o)).
Qed.

(** [str(int(octet))] gives the octet back: leading zeros are refused. *)
Lemma str_int_parse_octet o v : parse_octet o = Some v -> str_int v = o.
Proof.
  intros Hp. pose proof (parse_octet_digits o v Hp) as Hd. revert Hp.
  unfold parse_octet. destruct o as [|c0 o]; [done|]. rewrite Hd. cbn [negb].
  destruct (3 <? String.length (String c0 o))%nat; [done|].
  destruct (negb (bool_decide (String c0 o = "0")) && bool_decide (c0 = "0"%char))
    eqn:Hz; [done|].
  destruct (255 <? int_of_digits 0 (String c0 o)); [done|]. intros [= <-].
  apply andb_true_iff in Hd as [Hc0 Ho].
  pose proof (is_digit_value c0 Hc0) as Hv.
  destruct (decide (c0 = "0"%char)) as [->|Hc].
  - rewrite (bool_decide_eq_true_2 ("0"%char = "0"%char)) in Hz by done.
    rewrite andb_true_r in Hz. apply negb_false_iff, bool_decide_eq_true in Hz.
    injection Hz as ->. reflexivity.
  - assert (0 < Z.of_N (N_of_ascii c0) - 48) as Hpos.
    { destruct (decide (Z.of_N (N_of_ascii c0) - 48 = 0)) as [H0|]; [|lia].
      exfalso. apply Hc. rewrite <- (pretty_N_char_digit c0 Hc0). by rewrite H0. }
    cbn [int_of_digits]. replace (10 * 0 + (Z.of_N (N_of_ascii c0) - 48))
      with (Z.of_N (N_of_ascii c0) - 48) by lia.
    pose proof (int_of_digits_pos o _ Hpos Ho) as Hbig.
    unfold str_int, pretty, pretty_N. rewrite decide_False by lia.
    rewrite pretty_N_go_digits, pretty_N_go_step by (done || lia).
    set (d := Z.of_N (N_of_ascii c0) - 48) in *.
    assert (Z.to_N d `div` 10 = 0)%N as -> by (apply N.div_small; lia).
    assert (Z.to_N d `mod` 10 = Z.to_N d)%N as -> by (apply N.mod_small; lia).
    rewrite pretty_N_go_0. unfold d.
    by rewrite pretty_N_char_digit, string_app_empty_r.
Qed.

Lemma to_bytes4_from_bytes b0 b1 b2 b3 :
  0 <= b0 <= 255 -> 0 <= b1 <= 255 -> 0 <= b2 <= 255 -> 0 <= b3 <= 255 ->
  to_bytes4 (from_bytes [b0; b1; b2; b3]) = [b0; b1; b2; b3].
Proof.
  intros. unfold to_bytes4, from_bytes. cbn [fold_left].
  change (2 ^ 24) with 16777216. change (2 ^ 16) with 65536.
  change (2 ^ 8) with 256.
  repeat f_equal; Z.div_mod_to_equations; lia.
Qed.

Lemma str_ipv4_round_trip `{Ipv6Lib} s ip :
  ip_address s = Ok (IPv4Address ip) -> str (IPv4Address ip) = s.
Proof.
  unfold ip_address.
  destruct (ipv4_address s) as [ip'|] eqn:Hs;
    [|by destruct (ipv6_int_from_string s)].
  intros [= <-]. revert Hs. unfold ipv4_address, ip_int_from_string.
  destruct (negb (Str.lacks "/" s)); [done|].
  destruct s as [|c s]; [done|].
  set (octets := Str.split "." (String c s)).
  destruct (length octets =? 4)%nat eqn:Hlen; cbn [negb]; [|done].
  apply Nat.eqb_eq in Hlen.
  destruct (mapM parse_octet octets) as [bs|] eqn:Hbs; [|done].
  cbn [fmap option_fmap option_map]. intros [= <-].
  pose proof (mapM_parse_octet_range _ _ Hbs) as Hr.
  apply mapM_Some in Hbs. pose proof (Forall2_length _ _ _ Hbs) as Hl.
  rewrite Hlen in Hl.
  destruct bs as [|b0 [|b1 [|b2 [|b3 [|]]]]]; try done.
  repeat match goal with H : Forall _ (_ :: _) |- _ =>
    apply Forall_cons in H as [? H] end.
  cbn [str]. rewrite to_bytes4_from_bytes by done.
  assert (str_int <$> [b0; b1; b2; b3] = octets) as ->.
  { clear -Hbs. induction Hbs as [|o b os bs Ho _ IH]; [done|].
    rewrite fmap_cons, IH. f_equal. by apply str_int_parse_octet. }
  apply (join_split "."%char).
Qed.

(** X9. Printing an IPv4 address that was parsed from a literal gives the
    literal back, so the string that [validate_peer] stores for an IPv4
    peer is the string that [build_route_map] later looks for. *)
Theorem str_of_parsed_ipv4 `{Ipv6Lib} s ip :
  ip_address s = Ok (IPv4Address ip) -> str (IPv4Address ip) = s.
Proof. apply str_ipv4_round_trip. Qed.

(** An IPv4 literal has digits and dots only. *)
Lemma split_all_digits s :
  Forall (fun o => Str.all is_digit o = true) (Str.split "." s) ->
  Str.lacks Str.newline s = true.
Proof.
  induction s as [|c s IH]; [done|]. cbn [Str.split Str.lacks].
  pose proof (split_not_nil "." s) as Hne.
  destruct (decide (c = "."%char)) as [->|Hc].
  - intros [_ Hs]%Forall_cons. by rewrite IH.
  - destruct (Str.split "." s) as [|l ls]; [done|].
    intros [Hl Hs]%Forall_cons. cbn [Str.all] in Hl.
    apply andb_true_iff in Hl as [Hd Hl]. rewrite IH by (by constructor).
    rewrite andb_true_r. apply negb_true_iff, bool_decide_eq_false.
    intros ->. by vm_compute in Hd.
Qed.

Lemma ipv4_literal_lacks_newline `{Ipv6Lib} s ip :
  ip_address s = Ok (IPv4Address ip) -> Str.lacks Str.newline s = true.
Proof.
  unfold ip_address.
  destruct (ipv4_address s) as [ip'|] eqn:Hs;
    [|by destruct (ipv6_int_from_string s)].
  intros _. revert Hs. unfold ipv4_address, ip_int_from_string.
  destruct (negb (Str.lacks "/" s)); [done|].
  destruct s as [|c s]; [done|].
  set (octets := Str.split "." (String c s)).
  destruct (negb (length octets =? 4)%nat); [done|].
  destruct (mapM parse_octet octets) as [bs|] eqn:Hbs; [|done].
  intros _. apply split_all_digits. fold octets.
  apply mapM_Some in Hbs. clear -Hbs.
  induction Hbs as [|o b os bs Ho _ IH]; constructor; [|done].
  by eapply parse_octet_digits.
Qed.

End Ipv4RoundTrip.

Lemma str_of_parsed_ipv4_witness :
  @Ipaddress.str loopback_ipv6 (Ipaddress.IPv4Address 3232235777)
  = "192.168.1.1".
Proof.
  apply (@str_of_parsed_ipv4 loopback_ipv6 "192.168.1.1" 3232235777).
  reflexivity.
Defined.

(** ** [build_route_map] *)

Lemma default_route_map_out_idem neighbor :
  default_route_map_out (default_route_map_out neighbor)
  = default_route_map_out neighbor.
Proof.
  apply default_route_map_out_present, default_route_map_out_is_Some.
Qed.

Lemma concat_strings_app l1 l2 :
  concat_strings (l1 ++ l2) = concat_strings l1 +:+ concat_strings l2.
Proof.
  induction l1 as [|s l1 IH]; [done|].
  change (s +:+ concat_strings (l1 ++ l2)
          = (s +:+ concat_strings l1) +:+ concat_strings l2).
  by rewrite IH, string_app_assoc.
Qed.

(** A round reads the host through four keys only. *)
Lemma build_neighbor_ext h1 h2 st neighbor :
  validated_peers h1 = validated_peers h2 ->
  community h1 = community h2 ->
  as_path_acl h1 = as_path_acl h2 ->
  route_maps h1 = route_maps h2 ->
  build_neighbor h1 st neighbor = build_neighbor h2 st neighbor.
Proof. intros Hv Hc Ha Hr. unfold build_neighbor. by rewrite Hv, Hc, Ha, Hr. Qed.

Lemma build_neighbor_default h st neighbor :
  build_neighbor h st (default_route_map_out neighbor)
  = build_neighbor h st neighbor.
Proof. unfold build_neighbor. by rewrite default_route_map_out_idem. Qed.

Lemma for_each_build_ext h1 h2 l st :
  validated_peers h1 = validated_peers h2 ->
  community h1 = community h2 ->
  as_path_acl h1 = as_path_acl h2 ->
  route_maps h1 = route_maps h2 ->
  for_each (build_neighbor h1) (default_route_map_out <$> l) st
  = for_each (build_neighbor h2) l st.
Proof.
  intros Hv Hc Ha Hr. revert st. induction l as [|n l IH]; intros st; [done|].
  cbn [for_each fmap list_fmap].
  rewrite build_neighbor_default, (build_neighbor_ext h1 h2) by done.
  destruct (build_neighbor h2 st n); cbn [bind]; [apply IH|done].
Qed.

(** What a round adds, with every key in place. *)
Lemma build_neighbor_emitted h done text neighbor validated c acl rows :
  is_Some (neighbor !! "peer_ip") ->
  validated_peers h = Some validated ->
  community h = Some c ->
  as_path_acl h = Some acl ->
  route_maps h = Some rows ->
  build_neighbor h (done, text) neighbor
  = Ok (done ++ [default_route_map_out neighbor],
        text +:+ emitted validated c neighbor).
Proof.
  intros [p Hp] Hv Hc Hacl Hrows. unfold emitted, wants_route_map.
  rewrite Hp. destruct (decide (p ∈ validated)) as [Hin|Hnot].
  - destruct (neighbor !! "route_map_out") as [rm|] eqn:Hrm.
    + destruct (decide (rm = "NONE")) as [->|Hne].
      * eapply build_neighbor_create; eauto.
      * rewrite default_route_map_out_present, string_app_empty_r
          by (by rewrite ?Hrm).
        eapply build_neighbor_existing; eauto.
    + eapply build_neighbor_create; eauto.
  - rewrite string_app_empty_r. eapply build_neighbor_skip; eauto.
Qed.

Lemma for_each_build_emitted h l done text validated c acl rows :
  Forall (fun n : gmap string string => is_Some (n !! "peer_ip")) l ->
  validated_peers h = Some validated ->
  community h = Some c ->
  as_path_acl h = Some acl ->
  route_maps h = Some rows ->
  for_each (build_neighbor h) l (done, text)
  = Ok (done ++ (default_route_map_out <$> l),
        text +:+ concat_strings (emitted validated c <$> l)).
Proof.
  intros Hall Hv Hc Hacl Hrows. revert done text.
  induction Hall as [|n l Hn _ IH]; intros done text.
  { by rewrite app_nil_r, string_app_empty_r. }
  cbn [for_each].
  rewrite (build_neighbor_emitted h done text n validated c acl rows) by done.
  cbn [bind]. rewrite IH, <- app_assoc, string_app_assoc. reflexivity.
Qed.

Lemma build_route_map_run h cfg l validated c acl rows :
  bgp_config h = Some cfg ->
  cfg !! "neighbors" = Some (GList l) ->
  Forall (fun n : gmap string string => is_Some (n !! "peer_ip")) l ->
  validated_peers h = Some validated ->
  community h = Some c ->
  as_path_acl h = Some acl ->
  route_maps h = Some rows ->
  build_route_map h
  = Ok (set_new_config (concat_strings (emitted validated c <$> l))
          (set_bgp_config
             (<["neighbors" := GList (default_route_map_out <$> l)]> cfg) h)).
Proof.
  intros Hcfg Hl Hall Hv Hc Hacl Hrows. unfold build_route_map.
  rewrite Hcfg. cbn [getitem bind]. rewrite Hl. cbn [getitem bind].
  by rewrite (for_each_build_emitted h l [] "" validated c acl rows).
Qed.

(** X10. With every key in place and a peer address in every record,
    [build_route_map] completes; the text it stores is the concatenation,
    in the order of the neighbors, of one create-new block for each
    validated peer without outbound route-map, the other neighbors adding
    nothing; the records get their [route_map_out] default; and nothing
    else on the host changes. *)
Theorem build_route_map_text h cfg l validated c acl rows :
  bgp_config h = Some cfg ->
  cfg !! "neighbors" = Some (GList l) ->
  Forall (fun n : gmap string string => is_Some (n !! "peer_ip")) l ->
  validated_peers h = Some validated ->
  community h = Some c ->
  as_path_acl h = Some acl ->
  route_maps h = Some rows ->
  build_route_map h
  = Ok (set_new_config (concat_strings (emitted validated c <$> l))
          (set_bgp_config
             (<["neighbors" := GList (default_route_map_out <$> l)]> cfg) h)).
Proof. apply build_route_map_run. Qed.

Lemma build_route_map_text_witness :
  let l := [neighbor_11; neighbor_22; neighbor_22_att] in
  let cfg : gmap string group := {["neighbors" := GList l]} in
  let h := staged_host l (att_out_rows "20") (as_path_one "^$")
             ["22.22.22.22"] "100:200" in
  build_route_map h
  = Ok (set_new_config
          (concat_strings (emitted ["22.22.22.22"] "100:200" <$> l))
          (set_bgp_config
             (<["neighbors" := GList (default_route_map_out <$> l)]> cfg) h)).
Proof.
  intros l cfg h.
  apply (build_route_map_text h cfg l ["22.22.22.22"] "100:200"
           (as_path_one "^$") (att_out_rows "20"));
    first [reflexivity | by repeat constructor].
Defined.

(** X11. Running [build_route_map] a second time changes nothing: the
    records already have their default, the same blocks are written again
    from an empty text, and the host comes out as the first run left it. *)
Theorem build_route_map_idempotent h h' :
  build_route_map h = Ok h' -> build_route_map h' = Ok h'.
Proof.
  unfold build_route_map at 1.
  destruct (bgp_config h) as [cfg|] eqn:Hcfg; [|done]. cbn [getitem bind].
  destruct (cfg !! "neighbors") as [[d|l]|] eqn:Hl; [| |done];
    cbn [getitem bind].
  - case_decide as Hd; [|done]. intros [= <-]. unfold build_route_map.
    cbn [bgp_config set_new_config]. rewrite Hcfg. cbn [getitem bind].
    rewrite Hl. cbn [getitem bind]. rewrite decide_True by done.
    by destruct h.
  - destruct (for_each (build_neighbor h) l ([], "")) as [[l' t]|] eqn:Hrun;
      [|done].
    cbn [bind]. intros [= <-].
    pose proof (for_each_build_inv _ _ _ _ _ _ Hrun) as [Hl' _].
    rewrite app_nil_l in Hl'. subst l'.
    unfold build_route_map. cbn [bgp_config set_new_config set_bgp_config].
    cbn [getitem bind]. rewrite lookup_insert_eq. cbn [getitem bind].
    rewrite (for_each_build_ext _ h) by done. rewrite Hrun. cbn [bind].
    rewrite insert_insert_eq. by destruct h.
Qed.

Lemma build_route_map_idempotent_witness :
  let l := [neighbor_11; neighbor_22] in
  let h := staged_host l [] (JList []) ["22.22.22.22"] "100:200" in
  let h' :=
    set_new_config (Textwrap.dedent
                      (new_route_map_template "100:200" "22.22.22.22"))
      (set_bgp_config
         {["neighbors" := GList (default_route_map_out <$> l)]} h) in
  build_route_map h' = Ok h'.
Proof.
  intros l h h'.
  apply (build_route_map_idempotent h h'). reflexivity.
Defined.

Lemma build_neighbor_no_community h done text neighbor validated acl rows :
  is_Some (neighbor !! "peer_ip") ->
  validated_peers h = Some validated ->
  community h = None ->
  as_path_acl h = Some acl ->
  route_maps h = Some rows ->
  build_neighbor h (done, text) neighbor
  = if decide (is_Some (wants_route_map validated neighbor))
    then Raise (KeyError "community")
    else Ok (done ++ [default_route_map_out neighbor], text).
Proof.
  intros [p Hp] Hv Hc Hacl Hrows. unfold wants_route_map. rewrite Hp.
  destruct (decide (p ∈ validated)) as [Hin|Hnot].
  - assert (default_route_map_out neighbor !! "peer_ip" = Some p) as Hp'
      by (by rewrite default_route_map_out_other).
    destruct (neighbor !! "route_map_out") as [rm|] eqn:Hrm.
    + destruct (decide (rm = "NONE")) as [->|Hne].
      * rewrite decide_True by (by eexists). unfold build_neighbor.
        rewrite Hp', default_route_map_out_none, Hv, Hc by (by right).
        cbn [getitem bind]. by rewrite !decide_True.
      * rewrite decide_False by (by intros [? ?]).
        rewrite default_route_map_out_present by (by rewrite Hrm).
        eapply build_neighbor_existing; eauto.
    + rewrite decide_True by (by eexists). unfold build_neighbor.
      rewrite Hp', default_route_map_out_none, Hv, Hc by (by left).
      cbn [getitem bind]. by rewrite !decide_True.
  - rewrite decide_False by (by intros [? ?]).
    eapply build_neighbor_skip; eauto.
Qed.

(** X12. The community is read only in the create-new branch.  On a host
    without the key [community] (the other keys in place, a peer address
    in every record), [build_route_map] raises [KeyError] for that key
    when some validated peer has no outbound route-map, and otherwise
    completes with an empty text. *)
Theorem build_route_map_without_community h cfg l validated acl rows :
  bgp_config h = Some cfg ->
  cfg !! "neighbors" = Some (GList l) ->
  Forall (fun n : gmap string string => is_Some (n !! "peer_ip")) l ->
  validated_peers h = Some validated ->
  community h = None ->
  as_path_acl h = Some acl ->
  route_maps h = Some rows ->
  build_route_map h
  = if decide (Exists (fun n => is_Some (wants_route_map validated n)) l)
    then Raise (KeyError "community")
    else Ok (set_new_config ""
               (set_bgp_config
                  (<["neighbors" := GList (default_route_map_out <$> l)]> cfg)
                  h)).
Proof.
  intros Hcfg Hl Hall Hv Hc Hacl Hrows. unfold build_route_map.
  rewrite Hcfg. cbn [getitem bind]. rewrite Hl. cbn [getitem bind].
  assert (forall done text,
    for_each (build_neighbor h) l (done, text)
    = if decide (Exists (fun n => is_Some (wants_route_map validated n)) l)
      then Raise (KeyError "community")
      else Ok (done ++ (default_route_map_out <$> l), text)) as ->.
  { clear Hl. induction Hall as [|n l Hn _ IH]; intros done text.
    - rewrite decide_False by (by intros ?%Exists_nil). by rewrite app_nil_r.
    - cbn [for_each].
      rewrite (build_neighbor_no_community h done text n validated acl rows)
        by done.
      destruct (decide (is_Some (wants_route_map validated n))) as [Hw|Hw].
      + by rewrite decide_True by (by left).
      + cbn [bind]. rewrite IH.
        destruct (decide (Exists _ l)) as [He|He].
        * by rewrite decide_True by (by right).
        * rewrite decide_False by (by intros [?|?]%Exists_cons).
          by rewrite <- app_assoc. }
  by case_decide.
Qed.

Lemma build_route_map_without_community_witness :
  let l := [neighbor_11; neighbor_22] in
  let h := MkHost (Some {["neighbors" := GList l]}) (Some []) (Some (JList []))
             (Some ["22.22.22.22"]) None None in
  build_route_map h
  = if decide (Exists (fun n => is_Some (wants_route_map ["22.22.22.22"] n)) l)
    then Raise (KeyError "community")
    else Ok (set_new_config ""
               (set_bgp_config
                  (<["neighbors" := GList (default_route_map_out <$> l)]>
                     {["neighbors" := GList l]}) h)).
Proof.
  intros l h.
  apply (build_route_map_without_community h {["neighbors" := GList l]} l
           ["22.22.22.22"] (JList []) []);
    first [reflexivity | by repeat constructor].
Defined.

(** ** [validate_peer] followed by [build_route_map] *)

Section ValidateThenBuild.
Context `{Ipv6Lib}.

Lemma parses_to_peer_ip l addrs :
  Forall2 parses_to l addrs ->
  Forall (fun n : gmap string string => is_Some (n !! "peer_ip")) l.
Proof.
  induction 1 as [|n a l addrs (s & Hs & _) _ IH]; constructor; [|done].
  by eexists.
Qed.

Lemma validate_peer_run h cfg l addrs :
  bgp_config h = Some cfg ->
  cfg !! "neighbors" = Some (GList l) ->
  Forall2 parses_to l addrs ->
  validate_peer h
  = Ok (set_validated_peers
          (Ipaddress.str <$> filter (fun a => excluded a = false) addrs) h).
Proof.
  intros Hcfg Hl Hall. unfold validate_peer. rewrite Hcfg.
  cbn [getitem bind]. rewrite Hl. cbn [getitem bind].
  by rewrite (for_each_validate l addrs []).
Qed.

(** X13. The validated peers are kept as Python prints them, and
    [build_route_map] looks for the peer as the device wrote it.  A
    neighbor whose address literal is not the printed form of any address
    on the device (its own included) is passed over by [build_route_map]:
    its round adds no text, whether or not its address lies in an
    exclusion range. *)
Theorem peer_printed_differently_is_passed_over
    h cfg l addrs neighbor s done text :
  bgp_config h = Some cfg ->
  cfg !! "neighbors" = Some (GList l) ->
  Forall2 parses_to l addrs ->
  neighbor !! "peer_ip" = Some s ->
  Forall (fun a => Ipaddress.str a <> s) addrs ->
  exists h1,
    validate_peer h = Ok h1
    /\ build_neighbor h1 (done, text) neighbor
       = Ok (done ++ [default_route_map_out neighbor], text).
Proof.
  intros Hcfg Hl Hall Hn Hs. eexists. split; [by eapply validate_peer_run|].
  eapply build_neighbor_skip; [done|done|].
  intros (a & Ha & [_ Hin]%list_elem_of_filter)%list_elem_of_fmap.
  rewrite Forall_forall in Hs. by apply (Hs a Hin).
Qed.

(** X14. An IPv4 peer outside the exclusion ranges and without outbound
    route-map gets its block: when every neighbor has a peer address that
    parses and the keys are in place, [validate_peer] and then
    [build_route_map] complete, and the stored text contains the create-new
    lines for that peer, with the address as the device wrote it. *)
Theorem ipv4_peer_gets_route_map
    h cfg l1 neighbor l2 addrs s ip c acl rows :
  bgp_config h = Some cfg ->
  cfg !! "neighbors" = Some (GList (l1 ++ neighbor :: l2)) ->
  Forall2 parses_to (l1 ++ neighbor :: l2) addrs ->
  neighbor !! "peer_ip" = Some s ->
  Ipaddress.ip_address s = Ok (Ipaddress.IPv4Address ip) ->
  excluded (Ipaddress.IPv4Address ip) = false ->
  neighbor !! "route_map_out" = None
  \/ neighbor !! "route_map_out" = Some "NONE" ->
  community h = Some c ->
  Str.lacks Str.newline c = true ->
  as_path_acl h = Some acl ->
  route_maps h = Some rows ->
  exists h1 h2 before after,
    validate_peer h = Ok h1
    /\ build_route_map h1 = Ok h2
    /\ new_config h2
       = Some (before +:+ Str.unlines (new_route_map_lines c s) +:+ after).
Proof.
  intros Hcfg Hl Hall Hn Hs Hex Hrm Hc Hcl Hacl Hrows.
  set (validated :=
         Ipaddress.str <$> filter (fun a => excluded a = false) addrs).
  assert (s ∈ validated) as Hin.
  { apply Forall2_app_inv_l in Hall as (a1 & a2 & _ & Ha2 & ->).
    apply Forall2_cons_inv_l in Ha2 as (a & a3 & (s' & Hs' & Ha) & _ & ->).
    assert (s' = s) as -> by congruence.
    assert (a = Ipaddress.IPv4Address ip) as -> by congruence.
    unfold validated. rewrite <- (str_ipv4_round_trip s ip Hs).
    apply list_elem_of_fmap_2, list_elem_of_filter. split; [done|].
    apply elem_of_app. right. by left. }
  exists (set_validated_peers validated h). eexists.
  exists (concat_strings (emitted validated c <$> l1)),
         (concat_strings (emitted validated c <$> l2)).
  split; [by eapply validate_peer_run|]. split.
  - eapply build_route_map_run; eauto. by eapply parses_to_peer_ip.
  - cbn [new_config set_new_config].
    rewrite fmap_app, concat_strings_app, fmap_cons. do 2 f_equal.
    change (concat_strings (?x :: ?l)) with (x +:+ concat_strings l).
    f_equal. unfold emitted, wants_route_map. rewrite Hn.
    rewrite decide_True by done.
    rewrite <- dedent_template
      by (done || by eapply ipv4_literal_lacks_newline).
    destruct Hrm as [->| ->]; [done|]. by rewrite decide_True.
Qed.

Lemma for_each_build_none_validated h l done text :
  Forall (fun n : gmap string string => is_Some (n !! "peer_ip")) l ->
  validated_peers h = Some [] ->
  for_each (build_neighbor h) l (done, text)
  = Ok (done ++ (default_route_map_out <$> l), text).
Proof.
  intros Hall Hv. revert done text.
  induction Hall as [|n l [p Hp] _ IH]; intros done text.
  { by rewrite app_nil_r. }
  cbn [for_each].
  rewrite (build_neighbor_skip h done text n p []) by (done || by inversion 1).
  cbn [bind]. by rewrite IH, <- app_assoc.
Qed.

(** X15. A device whose peers all lie in the exclusion ranges gets no
    configuration: [validate_peer] stores the empty list and
    [build_route_map] then completes with the empty text, even on a host
    that has no community, no route-map table and no AS-path lists. *)
Theorem excluded_peers_get_nothing h cfg l addrs :
  bgp_config h = Some cfg ->
  cfg !! "neighbors" = Some (GList l) ->
  Forall2 parses_to l addrs ->
  Forall (fun a => excluded a = true) addrs ->
  validate_peer h = Ok (set_validated_peers [] h)
  /\ build_route_map (set_validated_peers [] h)
     = Ok (set_new_config ""
             (set_bgp_config
                (<["neighbors" := GList (default_route_map_out <$> l)]> cfg)
                (set_validated_peers [] h))).
Proof.
  intros Hcfg Hl Hall Hex.
  assert (filter (fun a => excluded a = false) addrs = []) as Hf.
  { clear -Hex. induction Hex as [|a addrs Ha _ IH]; [done|].
    rewrite filter_cons, decide_False by congruence. exact IH. }
  split.
  - rewrite (validate_peer_run h cfg l addrs) by done. by rewrite Hf.
  - unfold build_route_map. cbn [bgp_config set_validated_peers].
    rewrite Hcfg. cbn [getitem bind]. rewrite Hl. cbn [getitem bind].
    rewrite for_each_build_none_validated;
      [done|by eapply parses_to_peer_ip|done].
Qed.

End ValidateThenBuild.

Lemma peer_printed_differently_is_passed_over_witness :
  let h := staged_host [neighbor_v6] [] (JList []) [] "100:200" in
  exists h1,
    @validate_peer ios_ipv6 h = Ok h1
    /\ build_neighbor h1 ([], "") neighbor_v6
       = Ok ([] ++ [default_route_map_out neighbor_v6], "").
Proof.
  intros h.
  apply (@peer_printed_differently_is_passed_over ios_ipv6 h
           {["neighbors" := GList [neighbor_v6]]} [neighbor_v6]
           [Ipaddress.IPv6Address 42540766411282592856903984951653826561]
           neighbor_v6 "2001:DB8::1" [] "");
    first [reflexivity
          | by repeat constructor; eexists; (split; reflexivity)
          | by repeat constructor].
Defined.

Lemma ipv4_peer_gets_route_map_witness :
  let h := staged_host [neighbor_11; neighbor_22] [] (JList []) [] "100:200" in
  exists h1 h2 before after,
    @validate_peer loopback_ipv6 h = Ok h1
    /\ build_route_map h1 = Ok h2
    /\ new_config h2
       = Some (before
                 +:+ Str.unlines (new_route_map_lines "100:200" "22.22.22.22")
                 +:+ after).
Proof.
  intros h.
  apply (@ipv4_peer_gets_route_map loopback_ipv6 h
           {["neighbors" := GList [neighbor_11; neighbor_22]]}
           [neighbor_11] neighbor_22 []
           [Ipaddress.IPv4Address 185273099; Ipaddress.IPv4Address 370546198]
           "22.22.22.22" 370546198 "100:200" (JList []) []);
    first [reflexivity | by left
          | by repeat constructor; eexists; (split; reflexivity)].
Defined.

Lemma excluded_peers_get_nothing_witness :
  let l := [neighbor_11; neighbor_10] in
  let cfg : gmap string group := {["neighbors" := GList l]} in
  let h := MkHost (Some cfg) None None None None None in
  @validate_peer loopback_ipv6 h = Ok (set_validated_peers [] h)
  /\ build_route_map (set_validated_peers [] h)
     = Ok (set_new_config ""
             (set_bgp_config
                (<["neighbors" := GList (default_route_map_out <$> l)]> cfg)
                (set_validated_peers [] h))).
Proof.
  intros l cfg h.
  apply (@excluded_peers_get_nothing loopback_ipv6 h cfg l
           [Ipaddress.IPv4Address 185273099; Ipaddress.IPv4Address 184483333]);
    first [reflexivity
          | by repeat constructor; eexists; (split; reflexivity)
          | by repeat constructor].
Defined.

(** ** [main] *)

Lemma get_route_maps_ok rows h :
  get_route_maps rows h = Ok (set_route_maps rows h).
Proof. by destruct rows. Qed.

Lemma get_bgp_config_neighbor_records cfg rest h :
  exists cfg',
    get_bgp_config (cfg :: rest) h = Ok (set_bgp_config cfg' h)
    /\ cfg' !! "neighbors" = Some (GList (neighbor_records cfg)).
Proof.
  destruct (get_bgp_config_lookup cfg rest h "neighbors")
    as (h' & cfg' & Hr & Hc & Hl).
  exists cfg'. split.
  - rewrite get_bgp_config_ok in Hr |- *. injection Hr as <-.
    by injection Hc as ->.
  - rewrite Hl. unfold neighbor_records.
    by destruct (cfg !! "neighbors") as [[d|l]|].
Qed.

(** X16. The whole run on one host.  When the BGP parse holds a result
    record (it is not the empty list), the host has a community,
    every neighbor record of the BGP parse has a peer address that parses,
    and the AS-path parse is empty or a list of records inside enclosing
    one-item lists, no task raises; the run stores the route-map table as
    it came, the printed addresses of the peers outside the exclusion
    ranges, and the blocks for those of them that have no outbound
    route-map. *)
Theorem main_host_completes `{Ipv6Lib}
    cfg rest rows as_path_parsed h c addrs :
  community h = Some c ->
  Forall2 parses_to (neighbor_records cfg) addrs ->
  json_len as_path_parsed = 0%nat
  \/ (exists k d more, as_path_parsed = enclose k (JList (JDict d :: more))) ->
  let validated :=
    Ipaddress.str <$> filter (fun a => excluded a = false) addrs in
  exists h',
    main_host (cfg :: rest) rows as_path_parsed h = Ok h'
    /\ route_maps h' = Some rows
    /\ validated_peers h' = Some validated
    /\ new_config h'
       = Some (concat_strings (emitted validated c <$> neighbor_records cfg))
    /\ community h' = Some c.
Proof.
  intros Hc Hall Hacl validated. unfold main_host.
  destruct (get_bgp_config_neighbor_records cfg rest h) as (cfg' & -> & Hn).
  cbn [bind]. rewrite get_route_maps_ok. cbn [bind].
  assert (exists v, forall h0,
            get_as_path as_path_parsed h0 = Ok (set_as_path_acl v h0))
    as [v ->].
  { destruct Hacl as [Hlen|(k & d & more & ->)].
    - exists as_path_parsed. intros h0. unfold get_as_path.
      apply Nat.eqb_eq in Hlen. by rewrite Hlen.
    - eexists. intros h0. apply get_as_path_flattens_aux. }
  cbn [bind].
  rewrite (validate_peer_run _ cfg' (neighbor_records cfg) addrs) by done.
  cbn [bind]. fold validated.
  erewrite build_route_map_run;
    [|done|exact Hn|by eapply parses_to_peer_ip|done|exact Hc|done|done].
  eexists. split; [done|]. by repeat split.
Qed.

Lemma main_host_completes_witness :
  let cfg : gmap string group :=
    {["neighbors" := GList [neighbor_10; neighbor_22; neighbor_22_att]]} in
  let validated := ["22.22.22.22"; "22.22.22.22"] in
  exists h',
    @main_host loopback_ipv6 [cfg] (att_out_rows "20") (as_path_one "^$")
      (inventory_host "100:200") = Ok h'
    /\ route_maps h' = Some (att_out_rows "20")
    /\ validated_peers h' = Some validated
    /\ new_config h'
       = Some (concat_strings
                 (emitted validated "100:200" <$> neighbor_records cfg))
    /\ community h' = Some "100:200".
Proof.
  intros cfg validated.
  apply (@main_host_completes loopback_ipv6 cfg [] (att_out_rows "20")
           (as_path_one "^$") (inventory_host "100:200") "100:200"
           [Ipaddress.IPv4Address 184483333; Ipaddress.IPv4Address 370546198;
            Ipaddress.IPv4Address 370546198]);
    [reflexivity| |right; eexists 0%nat, _, []; reflexivity].
  repeat constructor; eexists; (split; reflexivity).
Defined.

(** * The VLAN mapper *)

Lemma split_lacks_each sep s :
  Forall (fun piece => Str.lacks sep piece = true) (Str.split sep s).
Proof.
  induction s as [|c s IH]; [by repeat constructor|]. cbn [Str.split].
  pose proof (split_not_nil sep s) as Hne.
  destruct (decide (c = sep)) as [->|Hc]; [by constructor|].
  destruct (Str.split sep s) as [|l ls]; [done|].
  apply Forall_cons in IH as [Hl Hls]. constructor; [|done].
  cbn [Str.lacks]. rewrite Hl, andb_true_r.
  by apply negb_true_iff, bool_decide_eq_false.
Qed.

(** Splitting what was joined gives the pieces back. *)
Lemma split_join sep l :
  l <> [] ->
  Forall (fun piece => Str.lacks sep piece = true) l ->
  Str.split sep (Str.join (String sep "") l) = l.
Proof.
  intros Hne Hall. induction Hall as [|a l Ha Hall IH]; [done|].
  destruct l as [|b l]; [by apply split_lacks|].
  change (Str.join (String sep "") (a :: b :: l))
    with (a +:+ String sep (Str.join (String sep "") (b :: l))).
  rewrite split_app, (split_lacks sep a Ha). cbn [Str.split splice].
  rewrite decide_True by done. rewrite IH by done.
  by rewrite string_app_empty_r.
Qed.

(** The loops of [remap_vlans] visit every pair once, keep the key and
    put the changed value in the same place. *)
Lemma for_each_pairs {V : Type} (f : V -> result V)
    (l : list (string * V)) done r :
  for_each (fun done '(name, v) =>
              let* v' := f v in Ok (done ++ [(name, v')])) l done
  = Ok r ->
  exists l',
    r = done ++ l'
    /\ Forall2 (fun p p' => p'.1 = p.1 /\ f p.2 = Ok p'.2) l l'.
Proof.
  revert done. induction l as [|[name v] l IH]; intros done Hr.
  - injection Hr as <-. exists []. by rewrite app_nil_r.
  - cbn [for_each] in Hr. destruct (f v) as [v'|] eqn:Hv; [|done].
    cbn [bind] in Hr. apply IH in Hr as (l' & -> & Hl').
    exists ((name, v') :: l'). split; [by rewrite <- app_assoc|].
    by constructor.
Qed.

Lemma for_each_pairs_ok {V : Type} (f : V -> result V)
    (l l' : list (string * V)) done :
  Forall2 (fun p p' => p'.1 = p.1 /\ f p.2 = Ok p'.2) l l' ->
  for_each (fun done '(name, v) =>
              let* v' := f v in Ok (done ++ [(name, v')])) l done
  = Ok (done ++ l').
Proof.
  intros Hl. revert done.
  induction Hl as [|[name v] [name' v'] l l' [Hn Hv] _ IH]; intros done.
  - by rewrite app_nil_r.
  - cbn [for_each]. cbn in Hn, Hv. subst name'. rewrite Hv. cbn [bind].
    by rewrite IH, <- app_assoc.
Qed.

Lemma vlan_mapper_empty vlan : vlan_mapper ∅ vlan = vlan.
Proof. unfold vlan_mapper. by rewrite lookup_empty. Qed.

Lemma remap_access_empty intf intf' :
  remap_access ∅ intf = Ok intf' -> intf' = intf.
Proof.
  unfold remap_access.
  destruct (intf !! "mode") as [mode|]; [|done]. cbn [getitem bind].
  case_decide; [|by intros [= <-]].
  destruct (intf !! "vlans") as [vlans|] eqn:Hvlans; [|done].
  cbn [getitem bind]. rewrite vlan_mapper_empty, (insert_id intf) by done.
  destruct (intf !! "voice") as [voice|] eqn:Hvoice; [|done].
  cbn [getitem bind]. case_decide; [|by intros [= <-]].
  rewrite vlan_mapper_empty, insert_id by done. by intros [= <-].
Qed.

Lemma remap_trunk_empty intf intf' :
  remap_trunk ∅ intf = Ok intf' -> intf' = intf.
Proof.
  unfold remap_trunk.
  destruct (intf !! "mode") as [mode|]; [|done]. cbn [getitem bind].
  case_decide; [|by intros [= <-]].
  destruct (intf !! "vlans") as [vlans|] eqn:Hvlans; [|done].
  cbn [getitem bind].
  assert (vlan_mapper ∅ <$> Str.split "," vlans = Str.split "," vlans) as ->.
  { induction (Str.split "," vlans) as [|x xs IH]; [done|].
    by rewrite fmap_cons, IH, vlan_mapper_empty. }
  rewrite (join_split ","%char), (insert_id intf) by done.
  destruct (intf !! "native") as [native|] eqn:Hnative; [|done].
  cbn [getitem bind]. rewrite vlan_mapper_empty, insert_id by done.
  by intros [= <-].
Qed.

Lemma remap_intf_empty intf intf' :
  remap_intf ∅ intf = Ok intf' -> intf' = intf.
Proof.
  unfold remap_intf. destruct (remap_access ∅ intf) as [i1|] eqn:H1; [|done].
  cbn [bind]. intros H2. apply remap_access_empty in H1.
  apply remap_trunk_empty in H2. congruence.
Qed.

(** X17. With an empty mapping table [remap_vlans], when it completes,
    returns the interfaces as they were: splitting a trunk's VLAN list at
    the commas and joining it again gives the list back. *)
Theorem remap_vlans_empty_mapping all_hosts_intf remapped :
  remap_vlans ∅ all_hosts_intf = Ok remapped -> remapped = all_hosts_intf.
Proof.
  assert (forall host host',
            remap_host ∅ host = Ok host' -> host' = host) as Hhost.
  { intros host host' (l' & -> & Hl')%for_each_pairs. rewrite app_nil_l.
    induction Hl' as [|[n i] [n' i'] l l' [Hn Hi] _ IH]; [done|].
    cbn in Hn, Hi. apply remap_intf_empty in Hi. by subst. }
  intros (l' & -> & Hl')%for_each_pairs. rewrite app_nil_l.
  induction Hl' as [|[n i] [n' i'] l l' [Hn Hi] _ IH]; [done|].
  cbn in Hn, Hi. apply Hhost in Hi. by subst.
Qed.

Lemma remap_vlans_empty_mapping_witness :
  let all : list (string * list (string * gmap string string)) :=
    [("sw1", [("Eth1/1", {["mode" := "access"; "vlans" := "10";
                           "voice" := "none"]});
              ("Eth1/2", {["mode" := "trunk"; "vlans" := "10,20,30-40";
                           "native" := "1"]})])] in
  all = all.
Proof.
  intros all. apply (remap_vlans_empty_mapping all all). reflexivity.
Defined.

Ltac look :=
  repeat first
    [ rewrite lookup_insert_eq
    | rewrite lookup_insert_ne by done
    | rewrite lookup_singleton_eq ].

Lemma remap_access_shape m intf intf' :
  remap_access m intf = Ok intf' ->
  intf' !! "mode" = intf !! "mode"
  /\ dom intf' = dom intf
  /\ forall key, key <> "vlans" -> key <> "voice" ->
       intf' !! key = intf !! key.
Proof.
  unfold remap_access.
  destruct (intf !! "mode") as [mode|] eqn:Hmode; [|done].
  cbn [getitem bind]. case_decide; [|by intros [= <-]].
  destruct (intf !! "vlans") as [vlans|] eqn:Hvlans; [|done].
  cbn [getitem bind]. rewrite lookup_insert_ne by done.
  destruct (intf !! "voice") as [voice|] eqn:Hvoice; [|done].
  cbn [getitem bind].
  assert (dom (<["vlans" := vlan_mapper m vlans]> intf) = dom intf) as Hd
    by (by apply dom_insert_lookup_L).
  case_decide; intros [= <-].
  - split; [by look|]. split.
    + rewrite dom_insert_lookup_L; [done|]. by look.
    + intros key ? ?. by look.
  - split; [by look|]. split; [done|]. intros key ? ?. by look.
Qed.

Lemma remap_trunk_shape m intf intf' :
  remap_trunk m intf = Ok intf' ->
  intf' !! "mode" = intf !! "mode"
  /\ dom intf' = dom intf
  /\ forall key, key <> "vlans" -> key <> "native" ->
       intf' !! key = intf !! key.
Proof.
  unfold remap_trunk.
  destruct (intf !! "mode") as [mode|] eqn:Hmode; [|done].
  cbn [getitem bind]. case_decide; [|by intros [= <-]].
  destruct (intf !! "vlans") as [vlans|] eqn:Hvlans; [|done].
  cbn [getitem bind]. rewrite lookup_insert_ne by done.
  destruct (intf !! "native") as [native|] eqn:Hnative; [|done].
  cbn [getitem bind]. intros [= <-].
  split; [by look|]. split.
  - rewrite !dom_insert_lookup_L; [done|done|]. by look.
  - intros key ? ?. by look.
Qed.

Lemma remap_intf_shape m intf intf' :
  remap_intf m intf = Ok intf' ->
  intf' !! "mode" = intf !! "mode"
  /\ dom intf' = dom intf
  /\ forall key, key ∉ ["vlans"; "voice"; "native"] ->
       intf' !! key = intf !! key.
Proof.
  unfold remap_intf. destruct (remap_access m intf) as [i1|] eqn:H1; [|done].
  cbn [bind]. intros H2.
  apply remap_access_shape in H1 as (Hm1 & Hd1 & Hk1).
  apply remap_trunk_shape in H2 as (Hm2 & Hd2 & Hk2).
  split; [congruence|]. split; [congruence|].
  intros key Hkey. rewrite Hk2, Hk1; [done|..];
    intros ->; apply Hkey; rewrite !elem_of_cons; tauto.
Qed.

(** X18. [remap_vlans] changes VLAN numbers only: when it completes, the
    hosts and their interfaces are the same names in the same order, and
    every interface record has the same mode, the same keys, and the same
    values under all keys but [vlans], [voice] and [native]. *)
Theorem remap_vlans_keeps_shape m all_hosts_intf remapped :
  remap_vlans m all_hosts_intf = Ok remapped ->
  Forall2
    (fun host host' =>
       host'.1 = host.1
       /\ Forall2
            (fun intf intf' =>
               intf'.1 = intf.1
               /\ intf'.2 !! "mode" = intf.2 !! "mode"
               /\ dom intf'.2 = dom intf.2
               /\ forall key, key ∉ ["vlans"; "voice"; "native"] ->
                    intf'.2 !! key = intf.2 !! key)
            host.2 host'.2)
    all_hosts_intf remapped.
Proof.
  intros (l' & -> & Hl')%for_each_pairs. rewrite app_nil_l.
  eapply Forall2_impl; [exact Hl'|].
  intros [n h] [n' h'] [Hn Hh]. split; [done|]. cbn in Hh |- *.
  apply for_each_pairs in Hh as (i' & -> & Hi'). rewrite app_nil_l.
  eapply Forall2_impl; [exact Hi'|].
  intros [k i] [k' i2] [Hk Hi]. split; [done|]. cbn in Hi |- *.
  by apply (remap_intf_shape m).
Qed.

Lemma remap_vlans_keeps_shape_witness :
  let rec1 : gmap string string :=
    {["mode" := "access"; "vlans" := "10"; "voice" := "20"]} in
  let rec2 : gmap string string :=
    {["mode" := "access"; "vlans" := "110"; "voice" := "20"]} in
  Forall2
    (fun host host' : string * list (string * gmap string string) =>
       host'.1 = host.1
       /\ Forall2
            (fun intf intf' : string * gmap string string =>
               intf'.1 = intf.1
               /\ intf'.2 !! "mode" = intf.2 !! "mode"
               /\ dom intf'.2 = dom intf.2
               /\ forall key, key ∉ ["vlans"; "voice"; "native"] ->
                    intf'.2 !! key = intf.2 !! key)
            host.2 host'.2)
    [("sw1", [("Eth1/1", rec1)])] [("sw1", [("Eth1/1", rec2)])].
Proof.
  intros rec1 rec2.
  apply (remap_vlans_keeps_shape {["10" := "110"]}
           [("sw1", [("Eth1/1", rec1)])] [("sw1", [("Eth1/1", rec2)])]).
  reflexivity.
Defined.

Lemma remap_intf_other_mode m intf mode :
  intf !! "mode" = Some mode ->
  mode <> "access" -> mode <> "trunk" ->
  remap_intf m intf = Ok intf.
Proof.
  intros Hmode Ha Ht. unfold remap_intf, remap_access. rewrite Hmode.
  cbn [getitem bind]. rewrite decide_False by done. cbn [bind].
  unfold remap_trunk. rewrite Hmode. cbn [getitem bind].
  by rewrite decide_False.
Qed.

(** X19. An access port that the switch reports in mode [static access]
    (outside VLAN 1) is taken into the dictionary with that mode, and
    [remap_vlans] then looks for the mode [access] only: the record comes
    back unchanged whatever the mapping table holds for its VLANs. *)
Theorem static_access_is_not_remapped
    m intf_out name access voice trunking native :
  access <> "1" ->
  let record : gmap string string :=
    {["mode" := "static access"; "vlans" := access; "voice" := voice]} in
  add_intf intf_out
    (switchport_row name "static access" access voice trunking native)
  = Ok (dict_set name record intf_out)
  /\ remap_intf m record = Ok record.
Proof.
  intros Hne record. split.
  - unfold add_intf, switchport_row. look. cbn [getitem bind].
    rewrite decide_True by (by right). look. cbn [getitem bind].
    by rewrite decide_True.
  - apply (remap_intf_other_mode m record "static access"); done.
Qed.

Lemma static_access_is_not_remapped_witness :
  let record : gmap string string :=
    {["mode" := "static access"; "vlans" := "10"; "voice" := "none"]} in
  add_intf [] (switchport_row "Gi1/0/1" "static access" "10" "none" "ALL" "1")
  = Ok (dict_set "Gi1/0/1" record [])
  /\ remap_intf {["10" := "110"]} record = Ok record.
Proof.
  intros record.
  apply (static_access_is_not_remapped {["10" := "110"]} [] "Gi1/0/1" "10"
           "none" "ALL" "1").
  discriminate.
Defined.

Lemma vlan_mapper_lacks m sep vlan :
  map_Forall (fun _ new_vlan => Str.lacks sep new_vlan = true) m ->
  Str.lacks sep vlan = true ->
  Str.lacks sep (vlan_mapper m vlan) = true.
Proof.
  intros Hm Hv. unfold vlan_mapper.
  destruct (m !! vlan) as [new_vlan|] eqn:Hl; [|done]. by apply (Hm vlan).
Qed.

(** X20. On a trunk port every VLAN of the comma-separated list is looked
    up on its own and the list is put together again in the same order:
    when no new VLAN of the table contains a comma, the list that
    [remap_vlans] stores splits into the mapped items of the old list, as
    many as before; the native VLAN is mapped as well. *)
Theorem trunk_vlans_mapped_item_by_item m intf vlans native :
  intf !! "mode" = Some "trunk" ->
  intf !! "vlans" = Some vlans ->
  intf !! "native" = Some native ->
  map_Forall (fun _ new_vlan => Str.lacks ","%char new_vlan = true) m ->
  exists intf' vlans',
    remap_intf m intf = Ok intf'
    /\ intf' !! "vlans" = Some vlans'
    /\ Str.split ","%char vlans' = vlan_mapper m <$> Str.split ","%char vlans
    /\ intf' !! "native" = Some (vlan_mapper m native).
Proof.
  intros Hmode Hvlans Hnative Hm. eexists _, _. split; [|split; [|split]].
  - unfold remap_intf, remap_access. rewrite Hmode. cbn [getitem bind].
    rewrite decide_False by done. cbn [bind]. unfold remap_trunk.
    rewrite Hmode. cbn [getitem bind]. rewrite decide_True by done.
    rewrite Hvlans. cbn [getitem bind]. rewrite lookup_insert_ne by done.
    rewrite Hnative. cbn [getitem bind]. reflexivity.
  - by look.
  - apply split_join.
    + pose proof (split_not_nil "," vlans).
      by destruct (Str.split "," vlans).
    + pose proof (split_lacks_each "," vlans) as Hs.
      induction Hs as [|x xs Hx _ IH]; [done|].
      rewrite fmap_cons. constructor; [|done]. by apply vlan_mapper_lacks.
  - by look.
Qed.

Lemma trunk_vlans_mapped_item_by_item_witness :
  let intf : gmap string string :=
    {["mode" := "trunk"; "vlans" := "10,20,30-40"; "native" := "10"]} in
  let m : gmap string string := {["10" := "110"; "20" := "120"]} in
  exists intf' vlans',
    remap_intf m intf = Ok intf'
    /\ intf' !! "vlans" = Some vlans'
    /\ Str.split ","%char vlans'
       = vlan_mapper m <$> Str.split ","%char "10,20,30-40"
    /\ intf' !! "native" = Some (vlan_mapper m "10").
Proof.
  intros intf m.
  apply (trunk_vlans_mapped_item_by_item m intf "10,20,30-40" "10");
    try reflexivity.
  apply map_Forall_insert_2; [reflexivity|].
  apply map_Forall_singleton. reflexivity.
Defined.

Lemma dict_set_Forall {V : Type} (P : string * V -> Prop) k v d :
  P (k, v) -> Forall P d -> Forall P (dict_set k v d).
Proof.
  intros Hv Hd.
  induction Hd as [|[k' v'] d Hp Hd IH]; [by repeat constructor|].
  cbn [dict_set]. case_decide; by constructor.
Qed.

Lemma add_intf_records intf_out intf intf_out' :
  Forall (fun p => intf_record p.2) intf_out ->
  add_intf intf_out intf = Ok intf_out' ->
  Forall (fun p => intf_record p.2) intf_out'.
Proof.
  intros Hout. unfold add_intf, bind, getitem.
  repeat case_match; intros ?; simplify_eq; try done;
    apply dict_set_Forall; try done; eexists _, _.
  - left. split; [done|]. split; [done|]. by eexists.
  - right. split; [done|]. by eexists.
Qed.

Lemma for_each_add_intf_records interfaces intf_out intf_out' :
  Forall (fun p => intf_record p.2) intf_out ->
  for_each add_intf interfaces intf_out = Ok intf_out' ->
  Forall (fun p => intf_record p.2) intf_out'.
Proof.
  revert intf_out. induction interfaces as [|intf l IH]; intros out Hout Hr.
  - by injection Hr as <-.
  - cbn [for_each] in Hr. destruct (add_intf out intf) as [out1|] eqn:H1;
      [|done].
    cbn [bind] in Hr. eapply IH; [|done]. by eapply add_intf_records.
Qed.

Lemma remap_intf_record m intf :
  intf_record intf -> exists intf', remap_intf m intf = Ok intf'.
Proof.
  intros (mode & vlans & [([-> | ->] & _ & voice & ->) | (-> & native & ->)]).
  - unfold remap_intf, remap_access. look. cbn [getitem bind].
    rewrite decide_True by done. look. cbn [getitem bind].
    case_decide; cbn [bind]; unfold remap_trunk; look; cbn [getitem bind];
      rewrite decide_False by done; by eexists.
  - eexists. by eapply remap_intf_other_mode; [by look|..].
  - unfold remap_intf, remap_access. look. cbn [getitem bind].
    rewrite decide_False by done. cbn [bind]. unfold remap_trunk. look.
    cbn [getitem bind]. rewrite decide_True by done. look.
    cbn [getitem bind]. by eexists.
Qed.

Lemma remap_host_records m host :
  Forall (fun p => intf_record p.2) host ->
  exists host', remap_host m host = Ok host'.
Proof.
  intros Hh.
  assert (exists host',
    Forall2 (fun p p' : string * gmap string string =>
               p'.1 = p.1 /\ remap_intf m p.2 = Ok p'.2) host host')
    as [host' Hhost'].
  { induction Hh as [|[n i] l Hi _ [l' IH]]; [by exists []|].
    destruct (remap_intf_record m i Hi) as [i' Hi'].
    exists ((n, i') :: l'). by constructor. }
  exists host'. unfold remap_host.
  by rewrite (for_each_pairs_ok _ host host' []).
Qed.

(** X21. What [create_intf_dict] collects can always be remapped.  When
    it completes, every record it holds is an access port (mode [access]
    or [static access]) outside VLAN 1 with its VLAN and voice VLAN, or a
    trunk with its VLAN list and native VLAN; ports in any other mode and
    access ports in VLAN 1 are left out; and [remap_vlans] completes on the
    result for every mapping table. *)
Theorem create_then_remap_completes m results all_hosts_intf :
  create_intf_dict results = Ok all_hosts_intf ->
  Forall (fun host => Forall (fun p => intf_record p.2) host.2)
    all_hosts_intf
  /\ exists remapped, remap_vlans m all_hosts_intf = Ok remapped.
Proof.
  intros Hc.
  assert (Forall (fun host : string * list (string * gmap string string) =>
                    Forall (fun p => intf_record p.2) host.2)
            all_hosts_intf) as Hall.
  { revert Hc. unfold create_intf_dict.
    assert (Forall (fun host : string * list (string * gmap string string) =>
                      Forall (fun p => intf_record p.2) host.2) [])
      as Hnil by constructor.
    revert Hnil. generalize (@nil (string * list (string * gmap string string))).
    induction results as [|[host rows] results IH]; intros acc Hacc Hr.
    - by injection Hr as <-.
    - cbn [for_each] in Hr.
      destruct (for_each add_intf rows []) as [out|] eqn:Hout; [|done].
      cbn [bind] in Hr. eapply IH; [|exact Hr].
      apply dict_set_Forall; [|done]. cbn.
      by eapply for_each_add_intf_records. }
  split; [done|].
  assert (exists remapped,
    Forall2 (fun p p' : string * list (string * gmap string string) =>
               p'.1 = p.1 /\ remap_host m p.2 = Ok p'.2)
      all_hosts_intf remapped) as [remapped Hr].
  { clear Hc. induction Hall as [|[n h] l Hh _ [l' IH]]; [by exists []|].
    destruct (remap_host_records m h Hh) as [h' Hh'].
    exists ((n, h') :: l'). by constructor. }
  exists remapped. unfold remap_vlans.
  by rewrite (for_each_pairs_ok _ all_hosts_intf remapped []).
Qed.

Lemma create_then_remap_completes_witness :
  let rows :=
    [switchport_row "Eth1/1" "access" "10" "none" "1-4094" "1";
     switchport_row "Eth1/2" "access" "1" "none" "1-4094" "1";
     switchport_row "Eth1/3" "trunk" "1" "none" "10,20" "1";
     switchport_row "Eth1/4" "routed" "1" "none" "1-4094" "1"] in
  let all : list (string * list (string * gmap string string)) :=
    [("sw1",
      [("Eth1/1", {["mode" := "access"; "vlans" := "10"; "voice" := "none"]});
       ("Eth1/3", {["mode" := "trunk"; "vlans" := "10,20";
                    "native" := "1"]})])] in
  Forall (fun host => Forall (fun p => intf_record p.2) host.2) all
  /\ exists remapped, remap_vlans {["10" := "110"]} all = Ok remapped.
Proof.
  intros rows all.
  apply (create_then_remap_completes {["10" := "110"]} [("sw1", rows)] all).
  reflexivity.
Defined.

(** * Where the program falls short of what it sets out to do *)

(** C1. The peer 2001:DB8::1, as IOS writes it, lies in no exclusion
    range and has no outbound route-map.  [validate_peer] validates it and
    stores the address as Python prints it, [2001:db8::1];
    [build_route_map] then looks among the validated peers for the address
    as the device wrote it, does not find it, and the run ends with an
    empty configuration text and without an exception: this eligible peer
    gets no create-new block. *)
Theorem eligible_ipv6_peer_gets_no_block :
  exists h',
    @main_host ios_ipv6 [{["neighbors" := GDict neighbor_v6]}] []
      (JList []) (inventory_host "100:200")
    = Ok h'
    /\ validated_peers h' = Some ["2001:db8::1"]
    /\ bgp_config h'
       = Some {["neighbors" :=
                  GList [<["route_map_out" := "NONE"]> neighbor_v6]]}
    /\ new_config h' = Some "".
Proof. eexists. split; [reflexivity|]. repeat split. Qed.

(** C8. The empty text has no neighbor line, and for it the parse holds
    no result record at all: [bgp_config[0]] raises [IndexError] before
    the default for [neighbors] is reached, nothing is stored on the host,
    and the run of the host ends there. *)
Theorem get_bgp_config_empty_parse_raises `{Ipv6Lib} h rows as_path_parsed :
  get_bgp_config [] h = Raise IndexError
  /\ main_host [] rows as_path_parsed h = Raise IndexError.
Proof. split; reflexivity. Qed.
